(** * silence-cut-ia: silence detection, trim statistics and ffmpeg script
      synthesis, embedded from [src/utils/audioAnalysis.ts], the
      [calculateFinalDuration] helper of the App component and the
      [analyzeContent] service.

    JavaScript numbers that hold sample indices are modelled as [Z]; numbers
    that hold amplitudes and times in seconds are modelled as exact rationals
    [Q] (no rounding, no NaN, no infinities).  Strings are [String.string],
    read as the UTF-8 bytes of the text.  A loop that may run forever carries
    fuel and returns [None] when the fuel runs out. *)

From Stdlib Require Import ZArith QArith Qround Qabs List String Ascii Bool Lia Lqa.
From Stdlib Require Import DecimalString.
From Stdlib Require DecimalNat DecimalFacts.
Import ListNotations.

#[local] Open Scope Q_scope.

(* ------------------------------------------------------------------ *)
(** ** JavaScript number helpers *)

(** [a < b] on numbers. *)
Definition Qltb (a b : Q) : bool := negb (Qle_bool b a).

(** [Math.max(a, b)] and [Math.min(a, b)]. *)
Definition Math_max (a b : Q) : Q := if Qltb a b then b else a.
Definition Math_min (a b : Q) : Q := if Qltb b a then b else a.

(** [Math.floor(x)] and [Math.round(x)] (ties go up), as integers. *)
Definition Math_floor (x : Q) : Z := Qfloor x.
Definition Math_round (x : Q) : Z := Qfloor (x + (1 # 2)).

(** The two library functions of [Math] that have no rational counterpart.
    The development is parametric in them. *)
Class MathLib : Type := {
  Math_sqrt : Q -> Q;
  Math_pow : Q -> Q -> Q
}.

(* ------------------------------------------------------------------ *)
(** ** Data model (types.ts) *)

Record AudioSegment : Type := mkSegment {
  start : Q;
  end_ : Q;
  isSilent : bool
}.

(** The part of a Web Audio [AudioBuffer] that the detector reads:
    [getChannelData(0)] and [sampleRate]. *)
Record AudioBuffer : Type := mkBuffer {
  channelData0 : list Q;
  sampleRate : Q
}.

(* ------------------------------------------------------------------ *)
(** ** detectSilence (audioAnalysis.ts, lines 9-82) *)

(** Mutable locals of the window loop. *)
Record DetectState : Type := mkState {
  segments : list AudioSegment;
  isCurrentlySilent : bool;
  segmentStart : Q
}.

Definition initState : DetectState :=
  {| segments := []; isCurrentlySilent := false; segmentStart := 0 |}.

(** [rawData[j]]; the inner loop only reads indices inside the buffer. *)
Definition sample (rawData : list Q) (j : nat) : Q := nth j rawData 0.

(** Inner loop: [for (j = i; j < end; j++) sum += rawData[j] * rawData[j]]. *)
Definition sumSquares (rawData : list Q) (i e : Z) : Q :=
  fold_left (fun sum j => sum + sample rawData j * sample rawData j)
            (seq (Z.to_nat i) (Z.to_nat (e - i))) 0.

Section Detect.
Context {M : MathLib}.

Variable rawData : list Q.
Variable rate : Q.
Variable threshold : Q.

Definition samples : Z := Z.of_nat (List.length rawData).

Definition windowSize : Z := Math_floor (rate * (5 # 100)).

(** RMS of the window that starts at sample [i]. *)
Definition windowRms (i : Z) : Q :=
  let e := Z.min (i + windowSize) samples in
  Math_sqrt (sumSquares rawData i e / inject_Z (e - i)).

Definition isSilentFrame (i : Z) : bool := Qltb (windowRms i) threshold.

(** The rest of one iteration at index [i], once the window has been
    classified as [frame]. *)
Definition windowStep (i : Z) (frame : bool) (st : DetectState) : DetectState :=
  let currentTime := inject_Z i / rate in
  let st1 :=
    if (i =? 0)%Z
    then {| segments := segments st; isCurrentlySilent := frame; segmentStart := 0 |}
    else st in
  if negb (Bool.eqb frame (isCurrentlySilent st1))
  then {| segments := segments st1 ++
                        [ {| start := segmentStart st1;
                             end_ := currentTime;
                             isSilent := isCurrentlySilent st1 |} ];
          isCurrentlySilent := frame;
          segmentStart := currentTime |}
  else st1.

(** One iteration of the window loop at index [i]. *)
Definition windowBody (i : Z) (st : DetectState) : DetectState :=
  windowStep i (isSilentFrame i) st.

(** The loop header [for (let i = 0; i < samples; i += windowSize)] over
    a state of type [S], with fuel: [None] when the loop has not left
    after [fuel] iterations. *)
Fixpoint forWindows {S : Type} (body : Z -> S -> S) (fuel : nat) (i : Z) (st : S)
  : option S :=
  if (i <? samples)%Z then
    match fuel with
    | O => None
    | Datatypes.S fuel' => forWindows body fuel' (i + windowSize)%Z (body i st)
    end
  else Some st.

Definition windowLoop : nat -> Z -> DetectState -> option DetectState :=
  forWindows windowBody.

(** The same loop, recording for every iteration its index and the
    classification of its window. *)
Definition visitedFrames (fuel : nat) : option (list (Z * bool)) :=
  forWindows (fun i trace => trace ++ [(i, isSilentFrame i)]) fuel 0%Z [].

(** The raw run list: the loop's segments plus the final push. *)
Definition finalPush (st : DetectState) : list AudioSegment :=
  segments st ++ [ {| start := segmentStart st;
                      end_ := inject_Z samples / rate;
                      isSilent := isCurrentlySilent st |} ].
End Detect.

(** Gate: [if (seg.isSilent && (seg.end - seg.start) < minSilenceDuration)
    seg.isSilent = false]. *)
Definition gate (minSilenceDuration : Q) (seg : AudioSegment) : AudioSegment :=
  if isSilent seg && Qltb (end_ seg - start seg) minSilenceDuration
  then {| start := start seg; end_ := end_ seg; isSilent := false |}
  else seg.

(** [mergedSegments[mergedSegments.length - 1]] *)
Definition lastSegment (l : list AudioSegment) : option AudioSegment :=
  match rev l with
  | [] => None
  | x :: _ => Some x
  end.

(** [mergedSegments[mergedSegments.length - 1].end = e] *)
Definition setLastEnd (l : list AudioSegment) (e : Q) : list AudioSegment :=
  match rev l with
  | [] => []
  | x :: r => rev r ++ [ {| start := start x; end_ := e; isSilent := isSilent x |} ]
  end.

(** One iteration of the gate-and-merge loop.  The source mutates the
    segment objects in place; the raw list is local and never read again
    after its element has been visited, so the sharing is not observable. *)
Definition mergeStep (minSilenceDuration : Q)
    (mergedSegments : list AudioSegment) (seg0 : AudioSegment) : list AudioSegment :=
  let seg := gate minSilenceDuration seg0 in
  match lastSegment mergedSegments with
  | Some l =>
      if Bool.eqb (isSilent l) (isSilent seg)
      then setLastEnd mergedSegments (end_ seg)
      else mergedSegments ++ [seg]
  | None => mergedSegments ++ [seg]
  end.

Definition gateAndMerge (minSilenceDuration : Q) (raw : list AudioSegment)
  : list AudioSegment :=
  fold_left (mergeStep minSilenceDuration) raw [].

(** Fuel that is enough whenever the window loop terminates at all: with a
    step of at least one sample the loop leaves in at most [samples]
    iterations. *)
Definition loopFuel (rawData : list Q) : nat := S (List.length rawData).

(** [detectSilence(audioBuffer, thresholdDb, minSilenceDuration)];
    [None] stands for a window loop that never terminates. *)
Definition detectSilence_fuel {M : MathLib} (fuel : nat) (audioBuffer : AudioBuffer)
    (thresholdDb minSilenceDuration : Q) : option (list AudioSegment) :=
  let rawData := channelData0 audioBuffer in
  let rate := sampleRate audioBuffer in
  let threshold := Math_pow 10 (thresholdDb / 20) in
  match windowLoop rawData rate threshold fuel 0%Z initState with
  | None => None
  | Some st => Some (gateAndMerge minSilenceDuration (finalPush rawData rate st))
  end.

Definition detectSilence {M : MathLib} (audioBuffer : AudioBuffer)
    (thresholdDb minSilenceDuration : Q) : option (list AudioSegment) :=
  detectSilence_fuel (loopFuel (channelData0 audioBuffer)) audioBuffer
                     thresholdDb minSilenceDuration.

(** Rational stand-ins for [Math.sqrt] and [Math.pow], exact on ratios of
    perfect squares and on integer exponents; they are used to run the
    detector on concrete buffers. *)
Definition Qsqrt_floor (x : Q) : Q :=
  Z.sqrt (Qnum x * Zpos (Qden x)) # Qden x.

Definition Qpow_floor (b e : Q) : Q := Qpower b (Qfloor e).

Definition rationalMath : MathLib :=
  {| Math_sqrt := Qsqrt_floor; Math_pow := Qpow_floor |}.


(* ------------------------------------------------------------------ *)
(** ** String helpers *)

Definition DQ : string := String "034"%char EmptyString.
Definition NL : string := String "010"%char EmptyString.
Definition BSLASH : ascii := "\"%char.

(** [String(n)] for a non-negative integer. *)
Definition String_of_nat (n : nat) : string :=
  NilEmpty.string_of_uint (Nat.to_uint n).

(** [String(z)] for a non-negative integer held in [Z]. *)
Definition String_of_Z (z : Z) : string :=
  NilEmpty.string_of_uint (N.to_uint (Z.to_N z)).

Fixpoint repeatChar (c : ascii) (n : nat) : string :=
  match n with
  | O => EmptyString
  | S n' => String c (repeatChar c n')
  end.

(** [s.padStart(4, '0')] *)
Definition padStart4 (s : string) : string :=
  (repeatChar "0"%char (4 - String.length s) ++ s)%string.

(** [x.toFixed(4)]: the integer nearest to [|x| * 10^4] (ties go up),
    printed with four decimals and the sign of [x].  (Magnitudes of 1e21 and
    more, which JavaScript prints in exponent form, are outside the model.) *)
Definition toFixed4 (x : Q) : string :=
  let n := Qfloor (Qabs x * 10000 + (1 # 2)) in
  ((if Qltb x 0 then "-" else "") ++
   String_of_Z (n / 10000) ++ "." ++ padStart4 (String_of_Z (n mod 10000)))%string.

(** [name.replace(/([...])/g, '\\$1')] where the class holds the double
    quote, the backslash, the dollar sign and the backtick: each of them
    gets a backslash in front. *)
Fixpoint escapeUnix (name : string) : string :=
  match name with
  | EmptyString => EmptyString
  | String c rest =>
      if (Ascii.eqb c "034" || Ascii.eqb c BSLASH || Ascii.eqb c "$" || Ascii.eqb c "`")%char
      then String BSLASH (String c (escapeUnix rest))
      else String c (escapeUnix rest)
  end.

Inductive Platform : Type := win | unix.

(** [escapeName(name, platform)] *)
Definition escapeName (name : string) (platform : Platform) : string :=
  match platform with
  | unix => escapeUnix name
  | win => name
  end.

(** The characters of [\s] that take one byte: tab, line feed, vertical
    tab, form feed, carriage return and space. *)
Definition isSpace (c : ascii) : bool :=
  let n := nat_of_ascii c in
  ((9 <=? n) && (n <=? 13) || (n =? 32))%nat.

(** The character of [\s] that takes two bytes: U+00A0 (C2 A0). *)
Definition isSpace2 (c1 c2 : ascii) : bool :=
  (Ascii.eqb c1 "194" && Ascii.eqb c2 "160")%char.

(** The characters of [\s] that take three bytes: U+1680 (E1 9A 80),
    U+2000 to U+200A (E2 80 80 to E2 80 8A), U+2028, U+2029 and U+202F
    (E2 80 A8, A9, AF), U+205F (E2 81 9F), U+3000 (E3 80 80) and U+FEFF
    (EF BB BF). *)
Definition isSpace3 (c1 c2 c3 : ascii) : bool :=
  let n3 := nat_of_ascii c3 in
  (Ascii.eqb c1 "225" && Ascii.eqb c2 "154" && Ascii.eqb c3 "128")%char ||
  (Ascii.eqb c1 "226" && Ascii.eqb c2 "128" &&
   ((128 <=? n3)%nat && (n3 <=? 138)%nat ||
    Ascii.eqb c3 "168" || Ascii.eqb c3 "169" || Ascii.eqb c3 "175"))%char ||
  (Ascii.eqb c1 "226" && Ascii.eqb c2 "129" && Ascii.eqb c3 "159")%char ||
  (Ascii.eqb c1 "227" && Ascii.eqb c2 "128" && Ascii.eqb c3 "128")%char ||
  (Ascii.eqb c1 "239" && Ascii.eqb c2 "187" && Ascii.eqb c3 "191")%char.

(** What a white-space character contributes: an underscore when it opens
    a run, nothing inside a run. *)
Definition underscoreOnce (inRun : bool) (after : string) : string :=
  if inRun then after else String "_" after.

(** [s.replace(/\s+/g, '_')]: every maximal run of white space becomes one
    underscore.  The text is scanned character by character; a white-space
    character takes one, two or three bytes. *)
Fixpoint collapseSpaces (inRun : bool) (s : string) : string :=
  match s with
  | EmptyString => EmptyString
  | String c rest =>
      if isSpace c then underscoreOnce inRun (collapseSpaces true rest)
      else
        match rest with
        | EmptyString => String c (collapseSpaces false rest)
        | String c2 rest2 =>
            if isSpace2 c c2 then underscoreOnce inRun (collapseSpaces true rest2)
            else
              match rest2 with
              | EmptyString => String c (collapseSpaces false rest)
              | String c3 rest3 =>
                  if isSpace3 c c2 c3
                  then underscoreOnce inRun (collapseSpaces true rest3)
                  else String c (collapseSpaces false rest)
              end
        end
  end.

(** Does [s] match [[^/.]+$], i.e. is it non-empty and free of '/' and '.'? *)
Fixpoint plainTail (s : string) : bool :=
  match s with
  | EmptyString => false
  | String c EmptyString => negb (Ascii.eqb c "/" || Ascii.eqb c ".")
  | String c rest => negb (Ascii.eqb c "/" || Ascii.eqb c ".") && plainTail rest
  end.

(** [s.replace(/\.[^/.]+$/, "")]: drop a final extension. *)
Fixpoint stripExtension (s : string) : string :=
  match s with
  | EmptyString => EmptyString
  | String c rest =>
      if Ascii.eqb c "." && plainTail rest then EmptyString
      else String c (stripExtension rest)
  end.

(** [s.split('\n')] *)
Fixpoint splitLines (cur : string) (s : string) : list string :=
  match s with
  | EmptyString => [cur]
  | String c rest =>
      if Ascii.eqb c "010" then cur :: splitLines EmptyString rest
      else splitLines (cur ++ String c EmptyString)%string rest
  end.

(** [arr.forEach((x, index) => ...)] threading the variables the callback
    assigns to. *)
Definition forEachIndexed {A S : Type} (f : S -> A -> nat -> S) (l : list A) (s : S) : S :=
  snd (fold_left (fun acc x => (Datatypes.S (fst acc), f (snd acc) x (fst acc))) l (O, s)).

(* ------------------------------------------------------------------ *)
(** ** generateFfmpegScript (audioAnalysis.ts, lines 97-242) *)

(** [ExportFormat] is a union of string literals, erased at run time: the
    function only ever sees the string. *)
Definition ExportFormat : Type := string.

Definition ExportFormat_values : list ExportFormat :=
  ["mp4"; "mov"; "avi"; "mp3"; "wav"; "aac"]%string.

Record ScriptConfig : Type := mkConfig {
  format : ExportFormat;
  trimStart : Q;
  trimEnd : Q;
  bgMusicName : option string
}.

(** Truthiness of an optional string: [undefined] and the empty string are
    falsy. *)
Definition truthy (o : option string) : bool :=
  match o with
  | Some s => negb (String.eqb s "")
  | None => false
  end.

(** The predicate of [segments.filter]. *)
Definition keepSegment (config : ScriptConfig) (s : AudioSegment) : bool :=
  if isSilent s then false
  else if Qltb (end_ s) (trimStart config) || Qltb (trimEnd config) (start s) then false
  else true.

(** The function of [.map]: clamp to the trim range. *)
Definition clampSegment (config : ScriptConfig) (s : AudioSegment) : AudioSegment :=
  {| start := Math_max (start s) (trimStart config);
     end_ := Math_min (end_ s) (trimEnd config);
     isSilent := false |}.

Definition activeSegments (segs : list AudioSegment) (config : ScriptConfig)
  : list AudioSegment :=
  map (clampSegment config) (filter (keepSegment config) segs).

Definition isAudioOnly (ext : ExportFormat) : bool :=
  existsb (String.eqb ext) ["mp3"; "wav"; "aac"]%string.

(** Codec selection (lines 132-143): the pair [(videoCodec, audioCodec)]. *)
Definition codecSelection (ext : ExportFormat) : string * string :=
  let videoCodec := "libx264"%string in
  let audioCodec := "aac"%string in
  if isAudioOnly ext then
    let videoCodec := "null"%string in
    let audioCodec := if String.eqb ext "mp3" then "libmp3lame"%string else audioCodec in
    let audioCodec := if String.eqb ext "wav" then "pcm_s16le"%string else audioCodec in
    (videoCodec, audioCodec)
  else
    let videoCodec := if String.eqb ext "avi" then "mpeg4"%string else videoCodec in
    let videoCodec := if String.eqb ext "mov" then "libx264"%string else videoCodec in
    (videoCodec, audioCodec).

Section Script.
#[local] Open Scope string_scope.

Variable filename : string.
Variable platform : Platform.
Variable config : ScriptConfig.

Definition safeName : string := stripExtension (collapseSpaces false filename).

Definition inputFilename : string :=
  match platform with unix => escapeName filename unix | win => filename end.

Definition bgMusicFilename : string :=
  match bgMusicName config with
  | Some bg =>
      if truthy (bgMusicName config)
      then match platform with unix => escapeName bg unix | win => bg end
      else ""
  | None => ""
  end.

Definition ext : string := format config.
Definition outputName : string := safeName ++ "_edited." ++ ext.
Definition videoCodec : string := fst (codecSelection ext).
Definition audioCodec : string := snd (codecSelection ext).

Definition concatFile : string :=
  match platform with win => "segments\list.txt" | unix => "segments/list.txt" end.
Definition segmentDir : string :=
  match platform with win => "segments\" | unix => "segments/" end.

(** [`part_${String(index).padStart(4, '0')}.${isAudioOnly ? ext : 'mp4'}`] *)
Definition segName (index : nat) : string :=
  "part_" ++ padStart4 (String_of_nat index) ++ "." ++
  (if isAudioOnly ext then ext else "mp4").

Definition cmdVideo : string :=
  if isAudioOnly ext then "-vn" else "-c:v " ++ videoCodec ++ " -preset ultrafast".

(** The ffmpeg line a [forEach] callback appends to [script]; [input] is
    [inputFilename] in the unix branch and [filename] in the batch branch. *)
Definition extractCommand (input : string) (seg : AudioSegment) (index : nat) : string :=
  let duration := toFixed4 (end_ seg - start seg) in
  let start := toFixed4 (start seg) in
  "ffmpeg -y -i " ++ DQ ++ input ++ DQ ++ " -ss " ++ start ++ " -t " ++ duration ++
  " " ++ cmdVideo ++ " -c:a " ++ audioCodec ++ " " ++
  DQ ++ segmentDir ++ segName index ++ DQ ++ NL.

(** The line a [forEach] callback appends to [fileList]. *)
Definition unixManifestLine (index : nat) : string :=
  "file '" ++ segName index ++ "'" ++ NL.

Definition winManifestLine (index : nat) : string :=
  "file 'part_" ++ padStart4 (String_of_nat index) ++ ".mp4'" ++ NL.

(** The two [activeSegments.forEach] loops; the state is
    [(script, fileList)]. *)
Definition unixLoop (active : list AudioSegment) (script : string) : string * string :=
  forEachIndexed
    (fun st seg index =>
       (fst st ++ extractCommand inputFilename seg index,
        snd st ++ unixManifestLine index))
    active (script, "").

Definition winLoop (active : list AudioSegment) (script : string) : string * string :=
  forEachIndexed
    (fun st seg index =>
       (fst st ++ extractCommand filename seg index,
        snd st ++ winManifestLine index))
    active (script, "").

(** [fileList.split('\n').forEach(line => { if (line) script += `echo ${line}\n` })] *)
Definition echoLines (fileList : string) (script : string) : string :=
  fold_left (fun script line =>
               if String.eqb line "" then script
               else script ++ "echo " ++ line ++ NL)
            (splitLines "" fileList) script.

Definition generateFfmpegScript (segs : list AudioSegment) : string :=
  let active := activeSegments segs config in
  let script := "" in
  match platform with
  | unix =>
      let script := script ++ "#!/bin/bash" ++ NL ++ NL in
      let script := script ++ "# Process " ++ filename ++ " to " ++ outputName ++ NL in
      let script := script ++ "mkdir -p segments" ++ NL in
      let script := script ++ "echo " ++ DQ ++ "Extracting valid segments..." ++ DQ ++ NL ++ NL in
      let '(script, fileList) := unixLoop active script in
      let script := script ++ NL ++ "echo " ++ DQ ++ fileList ++ DQ ++ " > " ++ concatFile ++ NL ++ NL in
      let script := script ++ "echo " ++ DQ ++ "Concatenating..." ++ DQ ++ NL in
      let script :=
        if truthy (bgMusicName config) then
          let script := script ++ "ffmpeg -y -f concat -safe 0 -i " ++ concatFile ++
                        " -c copy " ++ DQ ++ "segments/temp_concat." ++ ext ++ DQ ++ NL in
          let script := script ++ "echo " ++ DQ ++
                        "Adding background music (Main 100%, BG 20%)..." ++ DQ ++ NL in
          let script :=
            if negb (isAudioOnly ext) then
              script ++ "ffmpeg -y -i " ++ DQ ++ "segments/temp_concat." ++ ext ++ DQ ++
              " -i " ++ DQ ++ bgMusicFilename ++ DQ ++ " -filter_complex " ++ DQ ++
              "[0:a][1:a]amix=inputs=2:duration=first:weights=1 0.2[a]" ++ DQ ++
              " -map 0:v -map " ++ DQ ++ "[a]" ++ DQ ++ " -c:v copy -c:a " ++ audioCodec ++
              " " ++ DQ ++ outputName ++ DQ ++ NL
            else
              script ++ "ffmpeg -y -i " ++ DQ ++ "segments/temp_concat." ++ ext ++ DQ ++
              " -i " ++ DQ ++ bgMusicFilename ++ DQ ++ " -filter_complex " ++ DQ ++
              "amix=inputs=2:duration=first:weights=1 0.2" ++ DQ ++
              " -c:a " ++ audioCodec ++ " " ++ DQ ++ outputName ++ DQ ++ NL in
          script ++ "rm " ++ DQ ++ "segments/temp_concat." ++ ext ++ DQ ++ NL
        else
          script ++ "ffmpeg -y -f concat -safe 0 -i " ++ concatFile ++ " -c copy " ++
          DQ ++ outputName ++ DQ ++ NL in
      let script := script ++ NL ++ "echo " ++ DQ ++ "Done! Saved to " ++ outputName ++ DQ ++ NL in
      script ++ "rm -rf segments" ++ NL
  | win =>
      let script := script ++ "@echo off" ++ NL in
      let script := script ++ "REM Process " ++ filename ++ " to " ++ outputName ++ NL in
      let script := script ++ "mkdir segments" ++ NL in
      let script := script ++ "echo Extracting valid segments..." ++ NL ++ NL in
      let '(script, fileList) := winLoop active script in
      let script := script ++ NL ++ "( " ++ NL in
      let script := echoLines fileList script in
      let script := script ++ ") > " ++ concatFile ++ NL ++ NL in
      let script := script ++ "echo Concatenating..." ++ NL in
      let script :=
        if truthy (bgMusicName config) then
          let bg := match bgMusicName config with Some b => b | None => "" end in
          let script := script ++ "ffmpeg -y -f concat -safe 0 -i " ++ concatFile ++
                        " -c copy " ++ DQ ++ "segments\temp_concat." ++ ext ++ DQ ++ NL in
          let script := script ++
                        "echo Adding background music (Main 100%%, BG 20%%)..." ++ NL in
          let script :=
            if negb (isAudioOnly ext) then
              script ++ "ffmpeg -y -i " ++ DQ ++ "segments\temp_concat." ++ ext ++ DQ ++
              " -i " ++ DQ ++ bg ++ DQ ++ " -filter_complex " ++ DQ ++
              "[0:a][1:a]amix=inputs=2:duration=first:weights=1 0.2[a]" ++ DQ ++
              " -map 0:v -map " ++ DQ ++ "[a]" ++ DQ ++ " -c:v copy -c:a " ++ audioCodec ++
              " " ++ DQ ++ outputName ++ DQ ++ NL
            else
              script ++ "ffmpeg -y -i " ++ DQ ++ "segments\temp_concat." ++ ext ++ DQ ++
              " -i " ++ DQ ++ bg ++ DQ ++ " -filter_complex " ++ DQ ++
              "amix=inputs=2:duration=first:weights=1 0.2" ++ DQ ++
              " -c:a " ++ audioCodec ++ " " ++ DQ ++ outputName ++ DQ ++ NL in
          script ++ "del " ++ DQ ++ "segments\temp_concat." ++ ext ++ DQ ++ NL
        else
          script ++ "ffmpeg -y -f concat -safe 0 -i " ++ concatFile ++ " -c copy " ++
          DQ ++ outputName ++ DQ ++ NL in
      let script := script ++ "echo Done! Saved to " ++ outputName ++ NL in
      let script := script ++ "rmdir /s /q segments" ++ NL in
      script ++ "pause" ++ NL
  end.
End Script.

(* ------------------------------------------------------------------ *)
(** ** calculateFinalDuration (App component) *)

(** The callback of [segs.forEach]; an early [return] leaves [dur] as it
    is. *)
Definition durationStep (tStart tEnd : Q) (dur : Q) (s : AudioSegment) : Q :=
  if isSilent s then dur
  else if Qltb (end_ s) tStart || Qltb tEnd (start s) then dur
  else
    let start' := Math_max (start s) tStart in
    let end' := Math_min (end_ s) tEnd in
    if Qltb start' end' then dur + (end' - start') else dur.

(** The value handed to [setFinalDuration]. *)
Definition calculateFinalDuration (segs : list AudioSegment) (tStart tEnd : Q) : Q :=
  fold_left (durationStep tStart tEnd) segs 0.

(* ------------------------------------------------------------------ *)
(** ** analyzeContent (Gemini service) *)

Record AiAnalysisResult : Type := mkAnalysis {
  title : string;
  summary : string;
  tags : list string;
  viralScore : Q
}.

(** A JavaScript exception, by its message. *)
Definition JsError : Type := string.

(** How a call (or the promise of an async function) ends. *)
Inductive Outcome (A : Type) : Type :=
| Returned (a : A)
| Thrown (e : JsError).
Arguments Returned {A} a.
Arguments Thrown {A} e.

Definition bind {A B : Type} (m : Outcome A) (k : A -> Outcome B) : Outcome B :=
  match m with
  | Returned a => k a
  | Thrown e => Thrown e
  end.

(** [try { body } catch (error) { handler }] *)
Definition tryCatch {A : Type} (body : Outcome A) (handler : JsError -> Outcome A)
  : Outcome A :=
  match body with
  | Returned a => Returned a
  | Thrown e => handler e
  end.

Notation "x <- m ;; k" := (bind m (fun x => k))
  (at level 61, m at next level, right associativity).

(** What the service reaches outside the module: the environment variable,
    the SDK client and [JSON.parse] (followed by the unchecked cast to
    [AiAnalysisResult]).  [generateContent ai model contents] stands for
    the awaited request with its fixed response schema and yields
    [response.text], which may be undefined. *)
Class GeminiEnv : Type := {
  Client : Type;
  API_KEY : option string;
  newGoogleGenAI : string -> Outcome Client;
  generateContent : Client -> string -> string -> Outcome (option string);
  JSON_parse : option string -> Outcome AiAnalysisResult
}.

Section Gemini.
Context {E : GeminiEnv}.
#[local] Open Scope string_scope.

Definition getGeminiClient : Outcome Client :=
  if truthy API_KEY
  then match API_KEY with
       | Some apiKey => newGoogleGenAI apiKey
       | None => Thrown "API Key not found in environment"
       end
  else Thrown "API Key not found in environment".

Definition prompt (filename : string) (context : option string) : string :=
  NL ++ "      I have a video file named " ++ DQ ++ filename ++ DQ ++ "." ++ NL ++
  "      " ++
  (match context with
   | Some c => if truthy context then "Context/Link: " ++ c else ""
   | None => ""
   end) ++ NL ++
  "      " ++ NL ++
  "      Please generate a creative title, a short catchy summary, 3 hashtags, and a predicted viral score (0-100) for a video with this name/context." ++ NL ++
  "      Assuming it's a raw recording that needs editing (silence removal)." ++ NL ++
  "    ".

(** The object returned in the [catch] block. *)
Definition fallbackResult : AiAnalysisResult :=
  {| title := "Content Analysis Unavailable";
     summary := "Could not connect to Gemini AI. Ensure API Key is configured.";
     tags := ["error"; "offline"];
     viralScore := 0 |}.

(** The [try] block. *)
Definition analyzeBody (filename : string) (context : option string)
  : Outcome AiAnalysisResult :=
  ai <- getGeminiClient ;;
  response <- generateContent ai "gemini-3-flash-preview" (prompt filename context) ;;
  result <- JSON_parse response ;;
  Returned result.

(** [analyzeContent(filename, context)]: how the returned promise
    settles.  The [console.error] call of the handler only logs and is left
    out. *)
Definition analyzeContent (filename : string) (context : option string)
  : Outcome AiAnalysisResult :=
  tryCatch (analyzeBody filename context) (fun error => Returned fallbackResult).
End Gemini.

(* ------------------------------------------------------------------ *)
(** ** Properties of timelines, windows and scripts *)

(** [R] holds between every segment and the one after it. *)
Fixpoint adjacent (R : AudioSegment -> AudioSegment -> Prop) (l : list AudioSegment)
  : Prop :=
  match l with
  | [] => True
  | a :: t => match t with [] => True | b :: _ => R a b end /\ adjacent R t
  end.

(** No gap and no overlap: each segment ends where the next one starts. *)
Definition gapless : list AudioSegment -> Prop :=
  adjacent (fun a b => end_ a = start b).

(** No two neighbours share their [isSilent] value. *)
Definition alternating : list AudioSegment -> Prop :=
  adjacent (fun a b => isSilent a <> isSilent b).

(** [sampleCount / sampleRate] *)
Definition totalDuration (audioBuffer : AudioBuffer) : Q :=
  inject_Z (samples (channelData0 audioBuffer)) / sampleRate audioBuffer.

(** The list partitions [[0, total)]. *)
Definition covers (total : Q) (l : list AudioSegment) : Prop :=
  option_map start (hd_error l) = Some 0 /\
  gapless l /\
  option_map end_ (lastSegment l) = Some total.

Definition silencesAtLeast (minSilenceDuration : Q) (l : list AudioSegment) : Prop :=
  forall s, In s l -> isSilent s = true -> minSilenceDuration <= end_ s - start s.

Definition canonical (total minSilenceDuration : Q) (l : list AudioSegment) : Prop :=
  covers total l /\ alternating l /\ silencesAtLeast minSilenceDuration l.

(** Spec wording (4.1): the samples cut into fixed windows of [w] samples,
    the final one possibly shorter. *)
Fixpoint spec_windowsFuel (fuel w : nat) (l : list Q) : list (list Q) :=
  match fuel, l with
  | O, _ => []
  | _, [] => []
  | Datatypes.S fuel', _ => firstn w l :: spec_windowsFuel fuel' w (skipn w l)
  end.

Definition spec_windows (w : nat) (l : list Q) : list (list Q) :=
  spec_windowsFuel (List.length l) w l.

(** Spec wording (4.1): RMS energy [sqrt(mean(sample^2))] of a window, and
    a window is silent iff its RMS is strictly below [10^(thresholdDb/20)]. *)
Definition spec_rms {M : MathLib} (window : list Q) : Q :=
  Math_sqrt (fold_left (fun sum x => sum + x * x) window 0 /
             inject_Z (Z.of_nat (List.length window))).

Definition spec_isSilent {M : MathLib} (thresholdDb : Q) (window : list Q) : bool :=
  Qltb (spec_rms window) (Math_pow 10 (thresholdDb / 20)).

(** The spec's windows as the loop meets them: each with the index of its
    first sample (the first window starts at [i], the next one [w] samples
    later) and its classification. *)
Fixpoint spec_frames {M : MathLib} (thresholdDb : Q) (i w : Z) (ws : list (list Q))
  : list (Z * bool) :=
  match ws with
  | [] => []
  | window :: rest =>
      (i, spec_isSilent thresholdDb window) :: spec_frames thresholdDb (i + w)%Z w rest
  end.

(** All elements but the last satisfy [P]; the last one satisfies [L]. *)
Fixpoint allButLast {A : Type} (P L : A -> Prop) (l : list A) : Prop :=
  match l with
  | [] => True
  | x :: t => match t with [] => L x | _ :: _ => P x end /\ allButLast P L t
  end.

(** [sub] occurs in [s]. *)
Definition contains (sub s : string) : Prop :=
  exists pre post, s = (pre ++ sub ++ post)%string.

(** What a [forEach] loop of the generator appends to [script] for the
    segments [l], numbered from [n]: one command each. *)
Fixpoint commandLines (cmd : AudioSegment -> nat -> string) (n : nat)
    (l : list AudioSegment) : string :=
  match l with
  | [] => EmptyString
  | seg :: rest => (cmd seg n ++ commandLines cmd (Datatypes.S n) rest)%string
  end.

(** What it appends to [fileList]: [count] manifest lines, numbered from
    [n]. *)
Fixpoint manifestLines (line : nat -> string) (n count : nat) : string :=
  match count with
  | O => EmptyString
  | Datatypes.S count' => (line n ++ manifestLines line (Datatypes.S n) count')%string
  end.

(** The codec pair the selection code assigns to each declared format. *)
Definition codecTable : list (ExportFormat * (string * string)) :=
  [ ("mp4", ("libx264", "aac"));
    ("mov", ("libx264", "aac"));
    ("avi", ("mpeg4", "aac"));
    ("mp3", ("null", "libmp3lame"));
    ("wav", ("null", "pcm_s16le"));
    ("aac", ("null", "aac")) ]%string.

(** The run that is still open in a loop state, closed at time [e]. *)
Definition openRun (st : DetectState) (e : Q) : AudioSegment :=
  {| start := segmentStart st; end_ := e; isSilent := isCurrentlySilent st |}.

(** Loop invariant of the window loop: the closed runs followed by the open
    one start at 0, are gapless and alternate, wherever the open run ends. *)
Definition runsOk (st : DetectState) : Prop :=
  forall e,
    option_map start (hd_error (segments st ++ [openRun st e])) = Some 0 /\
    gapless (segments st ++ [openRun st e]) /\
    alternating (segments st ++ [openRun st e]).

(** Loop invariant of the gate-and-merge loop, between the merged list and
    the raw segment [p] visited last. *)
Definition mergedOk (minSilenceDuration : Q) (p : AudioSegment)
    (merged : list AudioSegment) : Prop :=
  gapless merged /\ alternating merged /\
  silencesAtLeast minSilenceDuration merged /\
  exists l, lastSegment merged = Some l /\ end_ l = end_ p /\
            (isSilent l = true -> isSilent p = true).

(* ------------------------------------------------------------------ *)
(** ** Example inputs *)

(** A short buffer at 40 Hz (windows of two samples): quiet, loud, quiet. *)
Definition demoBuffer : AudioBuffer := mkBuffer [0; 0; 1; 1; 0; 0; 0] 40.

(** The timeline of scenario C: active, silent, active. *)
Definition scenarioC : list AudioSegment :=
  [mkSegment 0 2 false; mkSegment 2 3 true; mkSegment 3 10 false].

(** One active segment of ten seconds. *)
Definition oneTake : list AudioSegment := [mkSegment 0 10 false].

(** Trim ranges typed into the Start and End fields: an empty one and an
    inverted one. *)
Definition emptyTrim : ScriptConfig := mkConfig "mp4"%string 10 10 None.
Definition invertedTrim : ScriptConfig := mkConfig "mp4"%string 5 3 None.

(** An audio export of a two-second take. *)
Definition mp3Export : ScriptConfig := mkConfig "mp3"%string 0 2 None.
Definition shortTake : list AudioSegment := [mkSegment 0 2 false].

(** A format string outside [ExportFormat]. *)
Definition mkvExport : ScriptConfig := mkConfig "mkv"%string 0 2 None.

(** The unix script generated for [shortTake] of [in.mkv] under
    [mkvExport]. *)
Definition mkvScript : string :=
  ("#!/bin/bash" ++ NL ++ NL ++
   "# Process in.mkv to in_edited.mkv" ++ NL ++
   "mkdir -p segments" ++ NL ++
   "echo " ++ DQ ++ "Extracting valid segments..." ++ DQ ++ NL ++ NL ++
   "ffmpeg -y -i " ++ DQ ++ "in.mkv" ++ DQ ++
   " -ss 0.0000 -t 2.0000 -c:v libx264 -preset ultrafast -c:a aac " ++
   DQ ++ "segments/part_0000.mp4" ++ DQ ++ NL ++ NL ++
   "echo " ++ DQ ++ "file 'part_0000.mp4'" ++ NL ++ DQ ++ " > segments/list.txt" ++ NL ++ NL ++
   "echo " ++ DQ ++ "Concatenating..." ++ DQ ++ NL ++
   "ffmpeg -y -f concat -safe 0 -i segments/list.txt -c copy " ++
   DQ ++ "in_edited.mkv" ++ DQ ++ NL ++ NL ++
   "echo " ++ DQ ++ "Done! Saved to in_edited.mkv" ++ DQ ++ NL ++
   "rm -rf segments" ++ NL)%string.

(** The batch script generated for [shortTake] of [talk.mp3] under
    [mp3Export]. *)
Definition mp3BatchScript : string :=
  ("@echo off" ++ NL ++
   "REM Process talk.mp3 to talk_edited.mp3" ++ NL ++
   "mkdir segments" ++ NL ++
   "echo Extracting valid segments..." ++ NL ++ NL ++
   "ffmpeg -y -i " ++ DQ ++ "talk.mp3" ++ DQ ++
   " -ss 0.0000 -t 2.0000 -vn -c:a libmp3lame " ++
   DQ ++ "segments\part_0000.mp3" ++ DQ ++ NL ++ NL ++
   "( " ++ NL ++
   "echo file 'part_0000.mp4'" ++ NL ++
   ") > segments\list.txt" ++ NL ++ NL ++
   "echo Concatenating..." ++ NL ++
   "ffmpeg -y -f concat -safe 0 -i segments\list.txt -c copy " ++
   DQ ++ "talk_edited.mp3" ++ DQ ++ NL ++
   "echo Done! Saved to talk_edited.mp3" ++ NL ++
   "rmdir /s /q segments" ++ NL ++
   "pause" ++ NL)%string.

(** A trim range that starts exactly where the first segment of
    [scenarioC] ends. *)
Definition boundaryTrim : ScriptConfig := mkConfig "mp4"%string 2 5 None.

(** An environment without API key, where every outside call would fail. *)
Definition offlineEnv : GeminiEnv :=
  {| Client := unit;
     API_KEY := None;
     newGoogleGenAI := fun _ => Thrown "no client"%string;
     generateContent := fun _ _ _ => Thrown "network unreachable"%string;
     JSON_parse := fun _ => Thrown "Unexpected end of JSON input"%string |}.

(* ------------------------------------------------------------------ *)
(** ** Statistics panel (App component, renderStats) *)

(** [a >= b] on numbers. *)
Definition Qgeb (a b : Q) : bool := Qle_bool b a.

(** [s.padStart(len, '0')] *)
Definition padStart0 (len : nat) (s : string) : string :=
  (repeatChar "0"%char (len - String.length s) ++ s)%string.

(** [x.toFixed(digits)], as [toFixed4] for any number of decimals. *)
Definition toFixed (digits : nat) (x : Q) : string :=
  let scale := (10 ^ Z.of_nat digits)%Z in
  let n := Qfloor (Qabs x * inject_Z scale + (1 # 2)) in
  ((if Qltb x 0 then "-" else "") ++
   String_of_Z (n / scale) ++
   (match digits with
    | O => ""
    | _ => "." ++ padStart0 digits (String_of_Z (n mod scale))
    end))%string.

(** What the statistics panel shows. *)
Record StatsView : Type := mkStats {
  sourceLength : string;
  finalLength : string;
  reductionPercent : Z
}.

(** [renderStats()]: [None] is the [null] returned while the original
    duration is still 0. *)
Definition renderStats (originalDuration finalDuration : Q) (trimStart trimEnd : Q)
  : option StatsView :=
  if Qeq_bool originalDuration 0 then None
  else
    let saved := Math_max 0 ((trimEnd - trimStart) - finalDuration) in
    let percent :=
      if Qltb 0 originalDuration
      then Math_round ((saved / originalDuration) * 100)
      else 0%Z in
    Some {| sourceLength := toFixed 1 originalDuration;
            finalLength := toFixed 1 finalDuration;
            reductionPercent := percent |}.

(* ------------------------------------------------------------------ *)
(** ** Preview player (VideoPreview component) *)

Module Preview.

(** The fields of an [HTMLMediaElement] the handlers touch.  Writing
    [currentTime] is modelled as a plain assignment. *)
Record MediaElement : Type := mkMedia {
  currentTime : Q;
  paused : bool
}.

(** [types.ts]: the part of [ExportConfig] the player reads. *)
Record ExportConfig : Type := mkExport {
  trimStart : Q;
  trimEnd : Q
}.

(** What a handler can see and change: the two element refs ([None] for a
    null ref) and the component state. *)
Record Player : Type := mkPlayer {
  videoRef : option MediaElement;
  bgAudioRef : option MediaElement;
  isPlaying : bool;
  currentTimeState : Q;
  bgMusicSrc : string
}.

Definition setTime (m : MediaElement) (t : Q) : MediaElement :=
  {| currentTime := t; paused := paused m |}.

Definition pause (m : MediaElement) : MediaElement :=
  {| currentTime := currentTime m; paused := true |}.

Definition play (m : MediaElement) : MediaElement :=
  {| currentTime := currentTime m; paused := false |}.

Section Handlers.
Variable segments : list AudioSegment.
Variable autoSkip : bool.
Variable exportConfig : ExportConfig.

(** The [for (const seg of segments)] loop of [calculateVirtualTime], with
    its [continue] and [break]. *)
Fixpoint virtualLoop (realTime : Q) (segs : list AudioSegment) (virtual : Q) : Q :=
  match segs with
  | [] => virtual
  | seg :: rest =>
      if Qltb (end_ seg) (trimStart exportConfig) then virtualLoop realTime rest virtual
      else if Qltb realTime (start seg) then virtual
      else if Qltb (trimEnd exportConfig) (start seg) then virtual
      else
        let effectiveStart := Math_max (start seg) (trimStart exportConfig) in
        let effectiveEnd :=
          Math_min (Math_min (end_ seg) realTime) (trimEnd exportConfig) in
        if negb (isSilent seg) && Qltb effectiveStart effectiveEnd
        then virtualLoop realTime rest (virtual + (effectiveEnd - effectiveStart))
        else virtualLoop realTime rest virtual
  end.

(** [calculateVirtualTime(realTime)] *)
Definition calculateVirtualTime (realTime : Q) : Q :=
  if Qltb realTime (trimStart exportConfig) then 0
  else virtualLoop realTime segments 0.


(** [segments.find(s => time >= s.start && time < s.end)] *)
Definition currentSegmentAt (time : Q) : option AudioSegment :=
  find (fun s => Qgeb time (start s) && Qltb time (end_ s)) segments.

(** [segments.find(s => s.start >= currentSegment.end && !s.isSilent)] *)
Definition nextActiveAfter (currentSegment : AudioSegment) : option AudioSegment :=
  find (fun s => Qgeb (start s) (end_ currentSegment) && negb (isSilent s)) segments.

(** Step 2 of [handleTimeUpdate]: the segment to jump to, if any. *)
Definition autoSkipTarget (playing : bool) (time : Q) : option AudioSegment :=
  if autoSkip && (0 <? List.length segments)%nat && playing then
    match currentSegmentAt time with
    | Some currentSegment =>
        if isSilent currentSegment then
          match nextActiveAfter currentSegment with
          | Some nextActive =>
              if Qltb (start nextActive) (trimEnd exportConfig)
              then Some nextActive else None
          | None => None
          end
        else None
    | None => None
    end
  else None.

(** Step 3 of [handleTimeUpdate] on the background element. *)
Definition syncBackground (playing : bool) (time : Q) (bg : MediaElement)
  : MediaElement :=
  let vTime := calculateVirtualTime time in
  let bg := if Qltb (2 # 10) (Qabs (currentTime bg - vTime))
            then setTime bg vTime else bg in
  if playing && paused bg then play bg else bg.

(** [handleTimeUpdate()].  [isPlaying] keeps the value it had when the
    handler was created: [setIsPlaying(false)] only shows in the next
    state. *)
Definition handleTimeUpdate (p : Player) : Player :=
  match videoRef p with
  | None => p
  | Some video =>
      let time := currentTime video in
      let '(time, video) :=
        if Qltb time (trimStart exportConfig)
        then (trimStart exportConfig, setTime video (trimStart exportConfig))
        else (time, video) in
      let atEnd := Qgeb time (trimEnd exportConfig) in
      let video := if atEnd then pause video else video in
      let bg := if atEnd then option_map pause (bgAudioRef p) else bgAudioRef p in
      let nextPlaying := if atEnd then false else isPlaying p in
      let time := if atEnd then trimEnd exportConfig else time in
      let shown := time in
      let '(time, video) :=
        match autoSkipTarget (isPlaying p) time with
        | Some nextActive => (start nextActive, setTime video (start nextActive))
        | None => (time, video)
        end in
      let bg :=
        match bg with
        | Some b =>
            if negb (String.eqb (bgMusicSrc p) "")
            then Some (syncBackground (isPlaying p) time b)
            else bg
        | None => None
        end in
      {| videoRef := Some video;
         bgAudioRef := bg;
         isPlaying := nextPlaying;
         currentTimeState := shown;
         bgMusicSrc := bgMusicSrc p |}
  end.

End Handlers.


End Preview.

(* ------------------------------------------------------------------ *)
(** ** Timeline ruler (Timeline component) *)

Module Timeline.

Inductive DragMode : Type := dragStart | dragEnd | dragSeek.

(** The callbacks of the props. *)
Inductive Callback : Type :=
| onSeek (time : Q)
| onTrimChange (start_ end' : Q).

Section Ruler.
Variable duration : Q.
Variable trimStart : Q.
Variable trimEnd : Q.

Definition getX (time width : Q) : Q := (time / duration) * width.
Definition getTime (x width : Q) : Q := (x / width) * duration.

(** [handleMouseDown(e)] with the canvas mounted: [x] is
    [e.clientX - rect.left] and [width] is [rect.width].  The result is the
    drag mode that is set and the callback that is called. *)
Definition handleMouseDown (clientX rectLeft width : Q)
  : option DragMode * option Callback :=
  if Qeq_bool duration 0 then (None, None)
  else
    let x := clientX - rectLeft in
    let trimStartX := getX trimStart width in
    let trimEndX := getX trimEnd width in
    let handleWidth := 15 in
    if Qltb (Qabs (x - trimStartX)) handleWidth then (Some dragStart, None)
    else if Qltb (Qabs (x - trimEndX)) handleWidth then (Some dragEnd, None)
    else
      let newTime := getTime x width in
      (Some dragSeek, Some (onSeek (Math_max 0 (Math_min newTime duration)))).

(** [handleMouseMove(e)] with the canvas mounted. *)
Definition handleMouseMove (dragMode : option DragMode) (clientX rectLeft width : Q)
  : option Callback :=
  match dragMode with
  | None => None
  | Some mode =>
      let x := Math_max 0 (Math_min (clientX - rectLeft) width) in
      let newTime := getTime x width in
      match mode with
      | dragStart =>
          let maxStart := trimEnd - (5 # 10) in
          Some (onTrimChange (Math_min (Math_max 0 newTime) maxStart) trimEnd)
      | dragEnd =>
          let minEnd := trimStart + (5 # 10) in
          Some (onTrimChange trimStart (Math_max (Math_min duration newTime) minEnd))
      | dragSeek => Some (onSeek newTime)
      end
  end.
End Ruler.

End Timeline.

(* ------------------------------------------------------------------ *)
(** ** Progress animation (ProcessingView component) *)

Module Progress.

(** One call of [animate]: the new [currentProgress], which is also the
    value given to [setProgress]. *)
Definition animate (currentProgress : Q) : Q :=
  let increment := Math_max (5 # 100) ((98 - currentProgress) / 60) in
  let currentProgress := currentProgress + increment in
  if Qgeb currentProgress 99 then 99 else currentProgress.

(** The progress after [n] animation frames, from 0. *)
Fixpoint progressAfter (n : nat) : Q :=
  match n with
  | O => 0
  | Datatypes.S n' => animate (progressAfter n')
  end.

(** [getStatusText(p)] *)
Definition getStatusText (p : Q) : string :=
  if Qltb p 25 then "Extracting audio stream..."%string
  else if Qltb p 50 then "Decoding waveform data..."%string
  else if Qltb p 75 then "Analyzing silence patterns..."%string
  else "Calculating optimal cut points..."%string.

End Progress.

(* ------------------------------------------------------------------ *)
(** ** Further properties of timelines *)

(** Every segment runs forward in time. *)
Definition forwardSegments (l : list AudioSegment) : Prop :=
  forall s, In s l -> start s <= end_ s.

(** The total of the durations the extract commands of a script ask for:
    [end - start] of every active segment. *)
Definition extractedDuration (active : list AudioSegment) : Q :=
  fold_left (fun total seg => total + (end_ seg - start seg)) active 0.

(** A segment of positive length inside [[0, total]]. *)
Definition properSegment (total : Q) (s : AudioSegment) : Prop :=
  0 <= start s /\ start s < end_ s /\ end_ s <= total.

(** Second invariant of the window loop, at index [i]: the closed runs are
    proper segments, and the open run starts at a sample of the buffer that
    lies before [i]. *)
Definition runsProper (rawData : list Q) (rate : Q) (i : Z) (st : DetectState) : Prop :=
  (forall s, In s (segments st) ->
             properSegment (inject_Z (samples rawData) / rate) s) /\
  exists j : Z,
    segmentStart st == inject_Z j / rate /\
    (0 <= j < samples rawData)%Z /\ (i = 0 \/ j < i)%Z.

(** Second invariant of the gate-and-merge loop. *)
Definition mergedProper (total : Q) (p : AudioSegment) (merged : list AudioSegment)
  : Prop :=
  (forall s, In s merged -> properSegment total s) /\
  exists l, lastSegment merged = Some l /\ end_ l = end_ p.

(** Segments in the order of their start times. *)
Definition startSorted : list AudioSegment -> Prop :=
  adjacent (fun a b => start a <= start b).

(** A buffer of quiet samples only, and a configuration for the player. *)
Definition quietBuffer : AudioBuffer := mkBuffer [0; 0; 0; 0; 0; 0] 40.
Definition previewTrim : Preview.ExportConfig := Preview.mkExport 1 5.

(** A player in the middle of the silent stretch of [scenarioC], with a
    background track, and the same player past the end of the trim range. *)
Definition playingInSilence : Preview.Player :=
  Preview.mkPlayer (Some (Preview.mkMedia (5 # 2) false))
                   (Some (Preview.mkMedia 0 false)) true (5 # 2) "blob:music".
Definition playingPastEnd : Preview.Player :=
  Preview.mkPlayer (Some (Preview.mkMedia 6 false))
                   (Some (Preview.mkMedia 3 false)) true 4 "blob:music".

(* ------------------------------------------------------------------ *)
(** ** Properties of file names *)

(** The characters [escapeName] puts a backslash in front of. *)
Definition isShellSpecial (c : ascii) : bool :=
  (Ascii.eqb c "034" || Ascii.eqb c BSLASH || Ascii.eqb c "$" || Ascii.eqb c "`")%char.

(** Text in which every double quote, backslash, dollar sign and backtick
    is the second character of a backslash pair. *)
Inductive escapedText : string -> Prop :=
| escaped_nil : escapedText EmptyString
| escaped_plain c s :
    isShellSpecial c = false -> escapedText s -> escapedText (String c s)
| escaped_pair c s :
    isShellSpecial c = true -> escapedText s ->
    escapedText (String BSLASH (String c s)).

(** The number of bytes of the white-space character the text starts
    with, 0 when it starts with none. *)
Definition spaceLength (s : string) : nat :=
  match s with
  | EmptyString => 0
  | String c rest =>
      if isSpace c then 1
      else
        match rest with
        | EmptyString => 0
        | String c2 rest2 =>
            if isSpace2 c c2 then 2
            else
              match rest2 with
              | EmptyString => 0
              | String c3 _ => if isSpace3 c c2 c3 then 3 else 0
              end
        end
  end%nat.

(** No white-space character starts anywhere in the text. *)
Fixpoint spaceFree (s : string) : bool :=
  match s with
  | EmptyString => true
  | String c rest => (spaceLength (String c rest) =? 0)%nat && spaceFree rest
  end.

(** [P] holds for every character of the string. *)
Fixpoint everyChar (P : ascii -> bool) (s : string) : bool :=
  match s with
  | EmptyString => true
  | String c rest => P c && everyChar P rest
  end.

(* ------------------------------------------------------------------ *)
(** * Proofs *)

(** ** Comparisons and clamping on rationals *)

Lemma Qltb_lt a b : Qltb a b = true <-> a < b.
Proof.
  unfold Qltb. rewrite negb_true_iff. split; intros H.
  - apply Qnot_le_lt. intros Hle. apply Qle_bool_iff in Hle. congruence.
  - destruct (Qle_bool b a) eqn:E; [|reflexivity].
    apply Qle_bool_iff in E. exfalso. exact (Qlt_not_le _ _ H E).
Qed.

Lemma Qltb_ge a b : Qltb a b = false <-> b <= a.
Proof.
  unfold Qltb. rewrite negb_false_iff. apply Qle_bool_iff.
Qed.

Lemma Qltb_spec a b : reflect (a < b) (Qltb a b).
Proof.
  destruct (Qltb a b) eqn:E; constructor.
  - now apply Qltb_lt.
  - apply Qltb_ge in E. now apply Qle_not_lt.
Qed.

(** Split on every comparison in the goal. *)
Ltac qcases :=
  repeat match goal with
         | |- context [Qltb ?a ?b] => destruct (Qltb_spec a b)
         | H : context [Qltb ?a ?b] |- _ => destruct (Qltb_spec a b)
         end.

(** ** The window loop *)

Section DetectFacts.
Context {M : MathLib}.
Variable rawData : list Q.
Variable rate : Q.
Variable threshold : Q.

#[local] Abbreviation samples := (samples rawData).
#[local] Abbreviation windowSize := (windowSize rate).

Lemma forWindows_step {S : Type} (body : Z -> S -> S) fuel i st :
  (i < samples)%Z ->
  forWindows rawData rate body (Datatypes.S fuel) i st =
  forWindows rawData rate body fuel (i + windowSize)%Z (body i st).
Proof.
  intros Hi. simpl. apply Z.ltb_lt in Hi. now rewrite Hi.
Qed.

Lemma forWindows_exit {S : Type} (body : Z -> S -> S) fuel i st :
  (samples <= i)%Z -> forWindows rawData rate body fuel i st = Some st.
Proof.
  intros Hi. apply Z.ltb_ge in Hi. destruct fuel; simpl; now rewrite Hi.
Qed.

(** With a step of at least one sample, fuel for the remaining samples
    is enough. *)
Lemma forWindows_terminates {S : Type} (body : Z -> S -> S) :
  (1 <= windowSize)%Z ->
  forall fuel i st,
    (samples - i <= Z.of_nat fuel)%Z ->
    exists st', forWindows rawData rate body fuel i st = Some st'.
Proof.
  intros Hw. induction fuel as [|fuel IH]; intros i st Hfuel.
  - exists st. apply forWindows_exit. lia.
  - destruct (Z_lt_le_dec i samples) as [Hlt|Hge].
    + rewrite forWindows_step by assumption. apply IH. lia.
    + exists st. now apply forWindows_exit.
Qed.

(** More fuel does not change a result. *)
Lemma forWindows_more_fuel {S : Type} (body : Z -> S -> S) :
  forall fuel fuel' i st st',
    (fuel <= fuel')%nat ->
    forWindows rawData rate body fuel i st = Some st' ->
    forWindows rawData rate body fuel' i st = Some st'.
Proof.
  induction fuel as [|fuel IH]; intros fuel' i st st' Hle H.
  - simpl in H. destruct (i <? samples)%Z eqn:E; [discriminate|].
    injection H as <-. apply forWindows_exit. now apply Z.ltb_ge.
  - destruct fuel' as [|fuel']; [lia|].
    simpl in *. destruct (i <? samples)%Z; [|assumption].
    apply IH with (fuel' := fuel') in H; [assumption|lia].
Qed.

(** With a step of zero (or less) the loop never leaves once it has been
    entered. *)
Lemma forWindows_diverges {S : Type} (body : Z -> S -> S) :
  (windowSize <= 0)%Z ->
  forall fuel i st,
    (i < samples)%Z -> forWindows rawData rate body fuel i st = None.
Proof.
  intros Hw. induction fuel as [|fuel IH]; intros i st Hi.
  - simpl. apply Z.ltb_lt in Hi. now rewrite Hi.
  - rewrite forWindows_step by assumption. apply IH. lia.
Qed.
End DetectFacts.

(** ** Segment lists *)

Lemma lastSegment_snoc l x : lastSegment (l ++ [x]) = Some x.
Proof. unfold lastSegment. now rewrite rev_unit. Qed.

Lemma setLastEnd_snoc l x e :
  setLastEnd (l ++ [x]) e =
  l ++ [ {| start := start x; end_ := e; isSilent := isSilent x |} ].
Proof. unfold setLastEnd. now rewrite rev_unit, rev_involutive. Qed.

Lemma lastSegment_inv l x : lastSegment l = Some x -> exists l0, l = l0 ++ [x].
Proof.
  unfold lastSegment. destruct (rev l) as [|y r] eqn:E; [discriminate|].
  intros H. injection H as ->. exists (rev r).
  rewrite <- (rev_involutive l), E. reflexivity.
Qed.

Lemma hd_error_snoc (l : list AudioSegment) a b :
  hd_error ((l ++ [a]) ++ [b]) = hd_error (l ++ [a]).
Proof. destruct l; reflexivity. Qed.

Lemma adjacent_snoc R l a b :
  adjacent R ((l ++ [a]) ++ [b]) <-> adjacent R (l ++ [a]) /\ R a b.
Proof.
  induction l as [|x l IH]; simpl.
  - tauto.
  - rewrite IH. destruct l as [|y l]; simpl; tauto.
Qed.

Lemma adjacent_replace_last R l a a' :
  (forall x, R x a -> R x a') ->
  adjacent R (l ++ [a]) -> adjacent R (l ++ [a']).
Proof.
  intros HR. induction l as [|x l IH]; simpl.
  - tauto.
  - intros [H1 H2]. split; [|now apply IH].
    destruct l as [|y l]; simpl in *; auto.
Qed.

(** ** Invariant of the window loop *)

Section RawRuns.
Context {M : MathLib}.
Variable rawData : list Q.
Variable rate : Q.
Variable threshold : Q.

Lemma runsOk_init : runsOk initState.
Proof. intros e. simpl. repeat split. Qed.

Lemma windowStep_ok i frame st :
  (i = 0%Z -> segments st = [] /\ segmentStart st = 0) ->
  runsOk st -> runsOk (windowStep rate i frame st).
Proof.
  intros H0 Hok. unfold windowStep.
  destruct (Z.eqb_spec i 0) as [->|Hne].
  - destruct (H0 eq_refl) as [Hs _]. cbn [isCurrentlySilent segments segmentStart].
    rewrite eqb_reflx. cbn [negb]. intros e. rewrite Hs. simpl. repeat split.
  - destruct (Bool.eqb frame (isCurrentlySilent st)) eqn:E; cbn [negb]; [exact Hok|].
    intros e. cbn [isCurrentlySilent segments segmentStart openRun].
    destruct (Hok (inject_Z i / rate)) as (Hhd & Hgap & Halt).
    unfold openRun in *. rewrite hd_error_snoc.
    unfold gapless, alternating in *. rewrite !adjacent_snoc. cbn [start end_ isSilent].
    repeat split; try assumption.
    intros Heq. rewrite Heq, eqb_reflx in E. discriminate.
Qed.

Lemma windowLoop_ok :
  (1 <= windowSize rate)%Z ->
  forall fuel i st st',
    (0 <= i)%Z ->
    (i = 0%Z -> segments st = [] /\ segmentStart st = 0) ->
    runsOk st ->
    windowLoop rawData rate threshold fuel i st = Some st' ->
    runsOk st'.
Proof.
  intros Hw. unfold windowLoop.
  induction fuel as [|fuel IH]; intros i st st' Hi H0 Hok H; simpl in H.
  - destruct (i <? samples rawData)%Z; [discriminate|]. now injection H as <-.
  - destruct (i <? samples rawData)%Z; [|now injection H as <-].
    eapply IH; [ | | | exact H].
    + lia.
    + intros Hz. exfalso. lia.
    + unfold windowBody. now apply windowStep_ok.
Qed.

(** Whatever the step, a loop that leaves from the initial state leaves in
    a state that satisfies the invariant. *)
Lemma windowLoop_from_init fuel st' :
  windowLoop rawData rate threshold fuel 0%Z initState = Some st' -> runsOk st'.
Proof.
  intros H. destruct (Z_lt_le_dec (windowSize rate) 1) as [Hw|Hw].
  - destruct (Z_lt_le_dec 0 (samples rawData)) as [Hs|Hs].
    + unfold windowLoop in H. rewrite forWindows_diverges in H by lia. discriminate.
    + unfold windowLoop in H. rewrite forWindows_exit in H by assumption.
      injection H as <-. apply runsOk_init.
  - eapply windowLoop_ok; eauto using runsOk_init; try lia.
    intros _. split; reflexivity.
Qed.

Lemma finalPush_raw st :
  runsOk st ->
  option_map start (hd_error (finalPush rawData rate st)) = Some 0 /\
  gapless (finalPush rawData rate st) /\
  alternating (finalPush rawData rate st) /\
  option_map end_ (lastSegment (finalPush rawData rate st)) =
    Some (inject_Z (samples rawData) / rate).
Proof.
  intros Hok. destruct (Hok (inject_Z (samples rawData) / rate)) as (H1 & H2 & H3).
  unfold finalPush. unfold openRun in *. repeat split; try assumption.
  now rewrite lastSegment_snoc.
Qed.
End RawRuns.

(** ** The gate-and-merge loop *)

Lemma gate_start m s : start (gate m s) = start s.
Proof. unfold gate. destruct (isSilent s && _); reflexivity. Qed.

Lemma gate_end m s : end_ (gate m s) = end_ s.
Proof. unfold gate. destruct (isSilent s && _); reflexivity. Qed.

Lemma gate_silent m s :
  isSilent (gate m s) = true -> isSilent s = true /\ m <= end_ s - start s.
Proof.
  unfold gate. destruct (isSilent s) eqn:Es; cbn [andb].
  - destruct (Qltb_spec (end_ s - start s) m) as [Hlt|Hge]; cbn [isSilent].
    + discriminate.
    + intros _. split; [reflexivity|]. now apply Qnot_lt_le.
  - rewrite Es. discriminate.
Qed.

Lemma lastSegment_cons a b l : lastSegment (a :: b :: l) = lastSegment (b :: l).
Proof.
  unfold lastSegment. cbn [rev]. destruct (rev l) as [|x r]; reflexivity.
Qed.

Lemma mergeStep_ok m p q merged :
  mergedOk m p merged ->
  end_ p = start q ->
  isSilent p <> isSilent q ->
  mergedOk m q (mergeStep m merged q) /\
  option_map start (hd_error (mergeStep m merged q)) =
  option_map start (hd_error merged).
Proof.
  intros (Hg & Ha & Hs & l & Hl & He & Hsil) Hpq Hne.
  destruct (lastSegment_inv _ _ Hl) as [m0 ->].
  unfold mergeStep. rewrite Hl.
  destruct (Bool.eqb (isSilent l) (isSilent (gate m q))) eqn:E.
  - apply eqb_prop in E.
    assert (Hl0 : isSilent l = false).
    { destruct (isSilent l) eqn:El; [|reflexivity].
      exfalso. symmetry in E. apply gate_silent in E. destruct E as [Eq _].
      apply Hne. rewrite Eq. now apply Hsil. }
    rewrite setLastEnd_snoc. split; [|destruct m0; reflexivity].
    unfold mergedOk, gapless, alternating in *. repeat split.
    + eapply adjacent_replace_last; [|exact Hg]. intros x Hx. exact Hx.
    + eapply adjacent_replace_last; [|exact Ha]. intros x Hx. exact Hx.
    + intros s Hin Hsl. apply in_app_or in Hin. destruct Hin as [Hin|[<-|[]]].
      * apply Hs; [|assumption]. apply in_or_app. now left.
      * cbn [isSilent] in Hsl. congruence.
    + eexists. split; [apply lastSegment_snoc|]. cbn [end_ isSilent].
      split; [apply gate_end|]. congruence.
  - apply eqb_false_iff in E.
    split; [|now rewrite hd_error_snoc].
    unfold mergedOk, gapless, alternating in *. rewrite !adjacent_snoc. repeat split.
    + assumption.
    + rewrite gate_start. congruence.
    + assumption.
    + assumption.
    + intros s Hin Hsl. apply in_app_or in Hin. destruct Hin as [Hin|[<-|[]]].
      * now apply Hs.
      * rewrite gate_start, gate_end. now apply gate_silent.
    + eexists. split; [apply lastSegment_snoc|].
      split; [apply gate_end|]. intros Hq. now apply gate_silent in Hq.
Qed.

Lemma merge_fold_ok m :
  forall rest p merged,
    mergedOk m p merged ->
    gapless (p :: rest) -> alternating (p :: rest) ->
    let res := fold_left (mergeStep m) rest merged in
    gapless res /\ alternating res /\ silencesAtLeast m res /\
    option_map start (hd_error res) = option_map start (hd_error merged) /\
    option_map end_ (lastSegment res) = option_map end_ (lastSegment (p :: rest)).
Proof.
  induction rest as [|q rest IH]; intros p merged Hok Hg Ha; cbn [fold_left].
  - destruct Hok as (H1 & H2 & H3 & l & Hl & He & _).
    repeat split; try assumption.
    rewrite Hl. cbn. now rewrite He.
  - destruct Hg as [Hpq Hg]. destruct Ha as [Hne Ha].
    destruct (mergeStep_ok m p q merged Hok Hpq Hne) as [Hok' Hhd].
    specialize (IH q _ Hok' Hg Ha). cbn zeta in IH.
    destruct IH as (I1 & I2 & I3 & I4 & I5).
    rewrite lastSegment_cons. repeat split; try assumption. congruence.
Qed.

Lemma gateAndMerge_canonical m total raw :
  option_map start (hd_error raw) = Some 0 ->
  gapless raw -> alternating raw ->
  option_map end_ (lastSegment raw) = Some total ->
  canonical total m (gateAndMerge m raw).
Proof.
  intros Hhd Hg Ha Hlast. destruct raw as [|r rest]; [discriminate|].
  unfold gateAndMerge. cbn [fold_left]. unfold mergeStep at 2. cbn [lastSegment rev app].
  assert (Hok : mergedOk m r [gate m r]).
  { unfold mergedOk, gapless, alternating. cbn. repeat split; try exact I.
    - intros s [<-|[]] Hs. rewrite gate_start, gate_end. now apply gate_silent.
    - eexists. split; [reflexivity|]. split; [apply gate_end|].
      intros Hs. now apply gate_silent in Hs. }
  destruct (merge_fold_ok m rest r _ Hok Hg Ha) as (H1 & H2 & H3 & H4 & H5).
  unfold canonical, covers. repeat split; try assumption.
  - rewrite H4. cbn. rewrite gate_start. exact Hhd.
  - now rewrite H5.
Qed.

(** ** Termination of detectSilence *)

Lemma windowSize_ge_1 rate : (1 <= windowSize rate)%Z <-> 20 <= rate.
Proof.
  unfold windowSize, Math_floor. split; intros H.
  - assert (H1 : inject_Z 1 <= rate * (5 # 100)).
    { eapply Qle_trans; [|apply Qfloor_le]. rewrite <- Zle_Qle. exact H. }
    change (inject_Z 1) with 1 in H1. lra.
  - change 1%Z with (Qfloor 1). apply Qfloor_resp_le. lra.
Qed.

Lemma detectSilence_fuel_some {M : MathLib} buf thr m fuel :
  (1 <= windowSize (sampleRate buf))%Z ->
  (loopFuel (channelData0 buf) <= fuel)%nat ->
  detectSilence_fuel fuel buf thr m = detectSilence buf thr m /\
  exists segs, detectSilence buf thr m = Some segs.
Proof.
  intros Hw Hfuel. unfold detectSilence, detectSilence_fuel, windowLoop.
  destruct (forWindows_terminates (channelData0 buf) (sampleRate buf)
              (windowBody (channelData0 buf) (sampleRate buf) (Math_pow 10 (thr / 20)))
              Hw (loopFuel (channelData0 buf)) 0%Z initState) as [st Hst].
  { unfold loopFuel, samples. lia. }
  rewrite Hst.
  rewrite (forWindows_more_fuel _ _ _ _ _ _ _ _ Hfuel Hst).
  split; [reflexivity|]. eexists. reflexivity.
Qed.

Lemma detectSilence_fuel_diverges {M : MathLib} buf thr m fuel :
  (windowSize (sampleRate buf) <= 0)%Z ->
  channelData0 buf <> [] ->
  detectSilence_fuel fuel buf thr m = None.
Proof.
  intros Hw Hne. unfold detectSilence_fuel, windowLoop.
  rewrite forWindows_diverges; [reflexivity|assumption|].
  unfold samples. destruct (channelData0 buf); [congruence|]. cbn [List.length]. lia.
Qed.

Lemma detectSilence_empty {M : MathLib} buf thr m fuel :
  channelData0 buf = [] ->
  detectSilence_fuel fuel buf thr m =
  Some [ {| start := 0; end_ := 0 / sampleRate buf; isSilent := false |} ].
Proof.
  intros He. unfold detectSilence_fuel, windowLoop.
  rewrite forWindows_exit by (rewrite He; cbn; lia).
  unfold finalPush, gateAndMerge, samples. rewrite He. reflexivity.
Qed.

(** ** Windows: the index loop against the spec's partition *)

Lemma skipn_nth_cons (l : list Q) a :
  (a < List.length l)%nat -> skipn a l = nth a l 0 :: skipn (Datatypes.S a) l.
Proof.
  revert a. induction l as [|x l IH]; intros a Ha; cbn [List.length] in Ha.
  - lia.
  - destruct a as [|a]; [reflexivity|]. cbn [skipn nth]. apply IH. lia.
Qed.

Lemma sumSquares_fold (l : list Q) :
  forall n a acc,
    (a + n <= List.length l)%nat ->
    fold_left (fun sum j => sum + sample l j * sample l j) (seq a n) acc =
    fold_left (fun sum x => sum + x * x) (firstn n (skipn a l)) acc.
Proof.
  induction n as [|n IH]; intros a acc Ha.
  - reflexivity.
  - rewrite (skipn_nth_cons l a) by lia. cbn [seq firstn fold_left].
    rewrite IH by lia. reflexivity.
Qed.

Lemma firstn_min_length {A : Type} (l : list A) w :
  firstn (Nat.min w (List.length l)) l = firstn w l.
Proof.
  destruct (Nat.le_ge_cases w (List.length l)) as [H|H].
  - now rewrite Nat.min_l.
  - rewrite Nat.min_r by assumption. rewrite firstn_all. now rewrite firstn_all2.
Qed.

Lemma spec_windowsFuel_nil fuel w : spec_windowsFuel fuel w [] = [].
Proof. destruct fuel; reflexivity. Qed.

Lemma spec_windows_concat w :
  (1 <= w)%nat ->
  forall fuel l, (List.length l <= fuel)%nat -> List.concat (spec_windowsFuel fuel w l) = l.
Proof.
  intros Hw. induction fuel as [|fuel IH]; intros l Hl.
  - destruct l; [reflexivity|cbn in Hl; lia].
  - destruct l as [|x l]; [reflexivity|].
    change (spec_windowsFuel (Datatypes.S fuel) w (x :: l))
      with (firstn w (x :: l) :: spec_windowsFuel fuel w (skipn w (x :: l))).
    cbn [List.concat]. rewrite IH.
    + apply firstn_skipn.
    + rewrite length_skipn. cbn [List.length] in *. lia.
Qed.

Lemma spec_windows_sizes w :
  (1 <= w)%nat ->
  forall fuel l,
    (List.length l <= fuel)%nat ->
    allButLast (fun window => List.length window = w)
               (fun window => (1 <= List.length window <= w)%nat)
               (spec_windowsFuel fuel w l).
Proof.
  intros Hw. induction fuel as [|fuel IH]; intros l Hl.
  - exact I.
  - destruct l as [|x l]; [exact I|].
    change (spec_windowsFuel (Datatypes.S fuel) w (x :: l))
      with (firstn w (x :: l) :: spec_windowsFuel fuel w (skipn w (x :: l))).
    assert (Hsk : (List.length (skipn w (x :: l)) <= fuel)%nat).
    { rewrite length_skipn. cbn [List.length] in *. lia. }
    cbn [allButLast]. split; [|now apply IH].
    destruct (skipn w (x :: l)) as [|y r] eqn:E.
    + rewrite spec_windowsFuel_nil. rewrite length_firstn. cbn [List.length]. lia.
    + destruct fuel as [|fuel]; [cbn in Hsk; lia|].
      cbn [spec_windowsFuel]. rewrite length_firstn.
      assert (Hlen : List.length (skipn w (x :: l)) = Datatypes.S (List.length r))
        by now rewrite E.
      rewrite length_skipn in Hlen. lia.
Qed.

Section Windows.
Context {M : MathLib}.
Variable rawData : list Q.
Variable rate : Q.
Variable thresholdDb : Q.

#[local] Abbreviation threshold := (Math_pow 10 (thresholdDb / 20)).
#[local] Abbreviation w := (windowSize rate).

(** The window the loop reads at index [i] is the next [w] samples (fewer
    at the tail), and the loop classifies it as the spec does. *)
Lemma isSilentFrame_spec pre l :
  (1 <= w)%Z -> rawData = pre ++ l -> l <> [] ->
  isSilentFrame rawData rate threshold (Z.of_nat (List.length pre)) =
  spec_isSilent thresholdDb (firstn (Z.to_nat w) l).
Proof.
  intros Hw Hraw Hl.
  assert (Hlen : (0 < List.length l)%nat) by (destruct l; [congruence|cbn; lia]).
  unfold isSilentFrame, spec_isSilent, windowRms, spec_rms, sumSquares.
  set (i := Z.of_nat (List.length pre)).
  set (e := Z.min (i + w) (samples rawData)).
  assert (Hs : samples rawData = (i + Z.of_nat (List.length l))%Z).
  { unfold samples, i. rewrite Hraw, length_app. lia. }
  assert (He : (e - i)%Z = Z.of_nat (Nat.min (Z.to_nat w) (List.length l))).
  { unfold e. rewrite Hs. lia. }
  rewrite He, Nat2Z.id. unfold i. rewrite Nat2Z.id.
  rewrite sumSquares_fold.
  - rewrite Hraw, skipn_app, skipn_all, Nat.sub_diag. cbn [app skipn].
    rewrite firstn_min_length.
    replace (Nat.min (Z.to_nat w) (List.length l))
      with (List.length (firstn (Z.to_nat w) l)); [reflexivity|].
    now rewrite length_firstn.
  - rewrite Hraw, length_app. lia.
Qed.

Lemma visitedFrames_spec :
  (1 <= w)%Z ->
  forall fuel pre l trace,
    rawData = pre ++ l ->
    (List.length l <= fuel)%nat ->
    forWindows rawData rate
      (fun i trace => trace ++ [(i, isSilentFrame rawData rate threshold i)])
      fuel (Z.of_nat (List.length pre)) trace =
    Some (trace ++ spec_frames thresholdDb (Z.of_nat (List.length pre)) w
                     (spec_windowsFuel fuel (Z.to_nat w) l)).
Proof.
  intros Hw. induction fuel as [|fuel IH]; intros pre l trace Hraw Hl.
  - destruct l; [|cbn in Hl; lia].
    rewrite forWindows_exit; [cbn; now rewrite app_nil_r|].
    unfold samples. rewrite Hraw, length_app. cbn. lia.
  - destruct l as [|x l].
    + rewrite forWindows_exit; [cbn; now rewrite app_nil_r|].
      unfold samples. rewrite Hraw, length_app. cbn. lia.
    + rewrite forWindows_step.
      2:{ unfold samples. rewrite Hraw, length_app. cbn [List.length]. lia. }
      change (spec_windowsFuel (Datatypes.S fuel) (Z.to_nat w) (x :: l))
        with (firstn (Z.to_nat w) (x :: l) ::
              spec_windowsFuel fuel (Z.to_nat w) (skipn (Z.to_nat w) (x :: l))).
      cbn [spec_frames].
      rewrite (isSilentFrame_spec pre (x :: l)) by (assumption || discriminate).
      destruct (Nat.le_gt_cases (Z.to_nat w) (List.length (x :: l))) as [Hle|Hgt].
      * replace (Z.of_nat (List.length pre) + w)%Z
          with (Z.of_nat (List.length (pre ++ firstn (Z.to_nat w) (x :: l)))).
        2:{ rewrite length_app, length_firstn. lia. }
        rewrite (IH (pre ++ firstn (Z.to_nat w) (x :: l)) (skipn (Z.to_nat w) (x :: l))).
        -- rewrite <- app_assoc. reflexivity.
        -- rewrite <- app_assoc, firstn_skipn. exact Hraw.
        -- rewrite length_skipn. cbn [List.length] in *. lia.
      * rewrite skipn_all2 by lia. rewrite spec_windowsFuel_nil. cbn [spec_frames].
        rewrite forWindows_exit; [reflexivity|].
        unfold samples. rewrite Hraw, length_app. lia.
Qed.

(** The detector's loop is the fold of [windowStep] over the recorded
    frames. *)
Lemma windowLoop_as_fold :
  forall fuel i trace trace' st,
    forWindows rawData rate
      (fun i trace => trace ++ [(i, isSilentFrame rawData rate threshold i)])
      fuel i trace = Some trace' ->
    exists new,
      trace' = trace ++ new /\
      windowLoop rawData rate threshold fuel i st =
      Some (fold_left (fun st p => windowStep rate (fst p) (snd p) st) new st).
Proof.
  unfold windowLoop.
  induction fuel as [|fuel IH]; intros i trace trace' st H; simpl in *.
  - destruct (i <? samples rawData)%Z; [discriminate|]. injection H as <-.
    exists []. now rewrite app_nil_r.
  - destruct (i <? samples rawData)%Z.
    + destruct (IH _ _ _ (windowBody rawData rate threshold i st) H) as (new & -> & Hn).
      exists ((i, isSilentFrame rawData rate threshold i) :: new).
      rewrite <- app_assoc. split; [reflexivity|]. exact Hn.
    + injection H as <-. exists []. now rewrite app_nil_r.
Qed.
End Windows.

(* ------------------------------------------------------------------ *)
(** * The detector: canonical timeline, windows, empty buffer, termination *)

(** C1. For every sample buffer the list returned by detectSilence after
    the gate-and-merge pass partitions [0, sampleCount/sampleRate): the
    first segment starts at 0, every segment ends where the next one
    starts, the last one ends at sampleCount/sampleRate; no two neighbours
    share [isSilent]; every silent segment lasts at least
    [minSilenceDuration].  This holds for whatever list the function
    returns, and with a sample rate of 20 Hz or more it does return one. *)
Theorem detectSilence_canonical {M : MathLib} buf thresholdDb minSilenceDuration :
  (20 <= sampleRate buf ->
   exists segs, detectSilence buf thresholdDb minSilenceDuration = Some segs) /\
  (forall fuel segs,
     detectSilence_fuel fuel buf thresholdDb minSilenceDuration = Some segs ->
     canonical (totalDuration buf) minSilenceDuration segs).
Proof.
  split.
  - intros Hrate. apply windowSize_ge_1 in Hrate.
    now apply (detectSilence_fuel_some buf thresholdDb minSilenceDuration
                 (loopFuel (channelData0 buf))).
  - intros fuel segs H. unfold detectSilence_fuel in H.
    destruct (windowLoop _ _ _ fuel 0%Z initState) as [st|] eqn:Hloop; [|discriminate].
    injection H as <-.
    apply windowLoop_from_init in Hloop.
    destruct (finalPush_raw (channelData0 buf) (sampleRate buf) st Hloop)
      as (H1 & H2 & H3 & H4).
    now apply gateAndMerge_canonical.
Qed.

(** On [demoBuffer] the detector finds silence, sound, silence; with a
    minimum of 0.1 s the two short silences are gated away and one active
    segment remains. *)
Example detectSilence_demo :
  @detectSilence rationalMath demoBuffer (-40) (1 # 20) =
    Some [mkSegment 0 (2 / 40) true; mkSegment (2 / 40) (4 / 40) false;
          mkSegment (4 / 40) (7 / 40) true] /\
  @detectSilence rationalMath demoBuffer (-40) (1 # 10) =
    Some [mkSegment 0 (7 / 40) false].
Proof. split; reflexivity. Qed.

Lemma detectSilence_canonical_witness :
  exists segs,
    @detectSilence rationalMath demoBuffer (-40) (1 # 20) = Some segs /\
    canonical (totalDuration demoBuffer) (1 # 20) segs.
Proof.
  destruct (@detectSilence_canonical rationalMath demoBuffer (-40) (1 # 20)) as [H1 H2].
  destruct H1 as [segs E].
  - vm_compute. discriminate.
  - exists segs. split; [exact E|]. exact (H2 _ _ E).
Defined.

(** C2, as the code has it.  With [w = floor(sampleRate * 0.05)] at least
    1, detectSilence cuts the buffer into consecutive windows of exactly
    [w] samples, only the final one possibly shorter (and never empty); the
    loop meets them at the indices 0, w, 2w, ... and classifies each as
    silent iff its RMS is strictly below [10^(thresholdDb/20)]. *)
Theorem detectSilence_windows {M : MathLib} buf thresholdDb :
  let rawData := channelData0 buf in
  let rate := sampleRate buf in
  let threshold := Math_pow 10 (thresholdDb / 20) in
  let w := Math_floor (rate * (5 # 100)) in
  let ws := spec_windows (Z.to_nat w) rawData in
  (1 <= w)%Z ->
  List.concat ws = rawData /\
  allButLast (fun window => List.length window = Z.to_nat w)
             (fun window => (1 <= List.length window <= Z.to_nat w)%nat) ws /\
  visitedFrames rawData rate threshold (loopFuel rawData) =
    Some (spec_frames thresholdDb 0 w ws) /\
  windowLoop rawData rate threshold (loopFuel rawData) 0%Z initState =
    Some (fold_left (fun st p => windowStep rate (fst p) (snd p) st)
                    (spec_frames thresholdDb 0 w ws) initState) /\
  (forall window,
     spec_isSilent thresholdDb window = true <->
     spec_rms window < Math_pow 10 (thresholdDb / 20)).
Proof.
  intros rawData rate threshold w ws Hw.
  assert (Hwn : (1 <= Z.to_nat w)%nat) by lia.
  assert (Hv : visitedFrames rawData rate threshold (loopFuel rawData) =
               Some (spec_frames thresholdDb 0 w ws)).
  { unfold visitedFrames.
    apply forWindows_more_fuel with (fuel := List.length rawData).
    - unfold loopFuel. lia.
    - apply (visitedFrames_spec rawData rate thresholdDb Hw (List.length rawData)
               [] rawData []); [reflexivity|lia]. }
  repeat split.
  - apply spec_windows_concat; [assumption|lia].
  - apply spec_windows_sizes; [assumption|lia].
  - exact Hv.
  - destruct (windowLoop_as_fold rawData rate thresholdDb _ _ _ _ initState Hv)
      as (new & Hnew & Hloop).
    cbn [app] in Hnew. subst new. exact Hloop.
  - apply Qltb_lt.
  - apply Qltb_lt.
Qed.

Lemma detectSilence_windows_witness :
  (1 <= Math_floor (sampleRate demoBuffer * (5 # 100)))%Z /\
  @visitedFrames rationalMath (channelData0 demoBuffer) 40
     (@Math_pow rationalMath 10 (-40 / 20)) (loopFuel (channelData0 demoBuffer)) =
  Some (@spec_frames rationalMath (-40) 0 2
          (spec_windows 2 (channelData0 demoBuffer))).
Proof.
  split.
  - vm_compute. discriminate.
  - apply (@detectSilence_windows rationalMath demoBuffer (-40)).
    vm_compute. discriminate.
Defined.

(** C2 as stated fails: the window has floor(sampleRate * 0.05) samples, not
    round(sampleRate * 0.05).  At 22050 Hz the window is 1102 samples while
    the rounded value is 1103; at 30 Hz the loop visits the windows that
    start at samples 0, 1 and 2 (one sample each) although round(1.5) = 2. *)
Lemma detectSilence_window_not_rounded :
  windowSize 22050 = 1102%Z /\
  Math_round (22050 * (5 # 100)) = 1103%Z /\
  Math_round (30 * (5 # 100)) = 2%Z /\
  option_map (map fst)
    (@visitedFrames rationalMath [0; 0; 0] 30 (@Math_pow rationalMath 10 (-40 / 20)) 4) =
  Some [0; 1; 2]%Z.
Proof. repeat split; reflexivity. Qed.

(** C3, as the code has it.  On an empty buffer detectSilence returns one
    segment, not none: the final push always runs, so the list holds the
    single non-silent segment from 0 to 0 / sampleRate, which is zero
    whenever the sample rate is not zero. *)
Theorem detectSilence_empty_buffer {M : MathLib} buf thresholdDb minSilenceDuration :
  channelData0 buf = [] ->
  detectSilence buf thresholdDb minSilenceDuration =
    Some [ {| start := 0; end_ := 0 / sampleRate buf; isSilent := false |} ] /\
  (~ sampleRate buf == 0 -> 0 / sampleRate buf == 0).
Proof.
  intros He. split.
  - now apply detectSilence_empty.
  - intros _. unfold Qdiv. apply Qmult_0_l.
Qed.

Lemma detectSilence_empty_buffer_witness :
  @detectSilence rationalMath (mkBuffer [] 44100) (-40) (1 # 2) =
    Some [ {| start := 0; end_ := 0 / 44100; isSilent := false |} ] /\
  0 / 44100 == 0.
Proof.
  destruct (@detectSilence_empty_buffer rationalMath (mkBuffer [] 44100) (-40) (1 # 2)
              eq_refl) as [H1 H2].
  split; [exact H1|]. apply H2. vm_compute. discriminate.
Defined.

(** C3 as stated fails: the list returned for an empty buffer is not
    empty. *)
Lemma detectSilence_empty_buffer_not_nil :
  @detectSilence rationalMath (mkBuffer [] 44100) (-40) (1 # 2) <> Some [].
Proof. vm_compute. discriminate. Qed.

(** C9, as the code has it.  The window loop advances by
    floor(sampleRate * 0.05) samples per iteration; that step is at least
    1 exactly when sampleRate >= 20, and then detectSilence terminates on
    every buffer (with the same result for any sufficient fuel).  Below 20
    the step is 0 for a non-negative rate, and a non-empty buffer makes the
    loop run forever; an empty buffer never enters the loop, so there
    detectSilence terminates at any rate. *)
Theorem detectSilence_termination {M : MathLib} buf thresholdDb minSilenceDuration :
  let rawData := channelData0 buf in
  let rate := sampleRate buf in
  (forall (S : Type) (body : Z -> S -> S) fuel i st,
     (i < samples rawData)%Z ->
     forWindows rawData rate body (Datatypes.S fuel) i st =
     forWindows rawData rate body fuel (i + Math_floor (rate * (5 # 100)))%Z (body i st)) /\
  ((1 <= Math_floor (rate * (5 # 100)))%Z <-> 20 <= rate) /\
  (20 <= rate ->
   exists segs, forall fuel,
     (loopFuel rawData <= fuel)%nat ->
     detectSilence_fuel fuel buf thresholdDb minSilenceDuration = Some segs) /\
  (0 <= rate -> rate < 20 -> Math_floor (rate * (5 # 100)) = 0%Z) /\
  (rate < 20 -> rawData <> [] ->
   forall fuel, detectSilence_fuel fuel buf thresholdDb minSilenceDuration = None) /\
  (rawData = [] ->
   forall fuel, detectSilence_fuel fuel buf thresholdDb minSilenceDuration <> None).
Proof.
  intros rawData rate. repeat split.
  - intros S body fuel i st Hi. now apply forWindows_step.
  - apply windowSize_ge_1.
  - apply windowSize_ge_1.
  - intros Hrate. apply windowSize_ge_1 in Hrate.
    destruct (detectSilence_fuel_some buf thresholdDb minSilenceDuration _ Hrate
                (Nat.le_refl _)) as [_ [segs Hs]].
    exists segs. intros fuel Hfuel.
    destruct (detectSilence_fuel_some buf thresholdDb minSilenceDuration fuel Hrate Hfuel)
      as [-> _]. exact Hs.
  - intros H0 H20. unfold Math_floor.
    assert (Hlo : (Qfloor 0 <= Qfloor (rate * (5 # 100)))%Z)
      by (apply Qfloor_resp_le; lra).
    assert (Hhi : (Qfloor (rate * (5 # 100)) < 1)%Z).
    { destruct (Z_lt_le_dec (Qfloor (rate * (5 # 100))) 1) as [Hlt|Hge]; [assumption|].
      exfalso. apply (proj1 (windowSize_ge_1 rate)) in Hge. lra. }
    change (Qfloor 0) with 0%Z in Hlo. lia.
  - intros H20 Hne fuel. apply detectSilence_fuel_diverges; [|assumption].
    destruct (Z_lt_le_dec (windowSize (sampleRate buf)) 1) as [Hlt|Hge]; [lia|].
    exfalso. apply (proj1 (windowSize_ge_1 _)) in Hge. fold rate in Hge. lra.
  - intros He fuel. rewrite detectSilence_empty by assumption. discriminate.
Qed.

Lemma detectSilence_termination_witness :
  exists segs, forall fuel,
    (loopFuel (channelData0 demoBuffer) <= fuel)%nat ->
    @detectSilence_fuel rationalMath fuel demoBuffer (-40) (1 # 20) = Some segs.
Proof.
  apply (@detectSilence_termination rationalMath demoBuffer (-40) (1 # 20)).
  vm_compute. discriminate.
Defined.

(** C9 as stated fails in its last part: termination does not hold only
    when floor(sampleRate * 0.05) >= 1.  At 10 Hz the step is 0, and on an
    empty buffer detectSilence still terminates. *)
Lemma detectSilence_terminates_below_20 :
  Math_floor (10 * (5 # 100)) = 0%Z /\
  @detectSilence rationalMath (mkBuffer [] 10) (-40) (1 # 2) =
    Some [ {| start := 0; end_ := 0 / 10; isSilent := false |} ].
Proof. split; reflexivity. Qed.

(* ------------------------------------------------------------------ *)
(** * Trim statistics *)

Lemma durationStep_mono tStart tEnd tStart' tEnd' d d' s :
  tStart' <= tStart -> tEnd <= tEnd' -> d <= d' ->
  durationStep tStart tEnd d s <= durationStep tStart' tEnd' d' s.
Proof.
  intros Hs He Hd. unfold durationStep, Math_max, Math_min.
  destruct (isSilent s); [assumption|].
  qcases; cbn [orb]; lra.
Qed.

Lemma durationStep_empty_range tStart tEnd d s :
  tEnd <= tStart -> durationStep tStart tEnd d s = d.
Proof.
  intros H. unfold durationStep, Math_max, Math_min.
  destruct (isSilent s); [reflexivity|].
  qcases; cbn [orb]; try reflexivity; exfalso; lra.
Qed.

(** With an empty or inverted trim range nothing is counted. *)
Lemma calculateFinalDuration_empty_range segs tStart tEnd :
  tEnd <= tStart -> calculateFinalDuration segs tStart tEnd = 0.
Proof.
  intros H. unfold calculateFinalDuration. generalize 0 as d.
  induction segs as [|s segs IH]; intros d; cbn [fold_left].
  - reflexivity.
  - rewrite durationStep_empty_range by assumption. apply IH.
Qed.

(** C7. For a fixed segment list, widening the trim range never lowers the
    final duration: if tStart' <= tStart and tEnd' >= tEnd, the duration
    for (tStart', tEnd') is at least the duration for (tStart, tEnd). *)
Theorem calculateFinalDuration_monotone segs tStart tEnd tStart' tEnd' :
  tStart' <= tStart -> tEnd <= tEnd' ->
  calculateFinalDuration segs tStart tEnd <= calculateFinalDuration segs tStart' tEnd'.
Proof.
  intros Hs He. unfold calculateFinalDuration.
  assert (H0 : 0 <= 0) by apply Qle_refl. revert H0.
  generalize 0 at 1 3 as d. generalize 0 as d'.
  induction segs as [|s segs IH]; intros d' d Hd; cbn [fold_left].
  - exact Hd.
  - apply IH. now apply durationStep_mono.
Qed.

(** Scenario C of the spec: trimming [scenarioC] to 1..5 leaves 1 + 2 = 3
    seconds. *)
Example calculateFinalDuration_scenarioC :
  calculateFinalDuration scenarioC 1 5 == 3 /\
  activeSegments scenarioC (mkConfig "mp4"%string 1 5 None) =
    [mkSegment 1 2 false; mkSegment 3 5 false].
Proof. split; reflexivity. Qed.

Lemma calculateFinalDuration_monotone_witness :
  calculateFinalDuration scenarioC 1 5 <= calculateFinalDuration scenarioC 0 10.
Proof.
  apply calculateFinalDuration_monotone; vm_compute; discriminate.
Defined.

(* ------------------------------------------------------------------ *)
(** * Script synthesis *)

Section Strings.
#[local] Open Scope string_scope.

Lemma append_assoc (a b c : string) : (a ++ b) ++ c = a ++ b ++ c.
Proof. induction a as [|x a IH]; cbn; [reflexivity|now rewrite IH]. Qed.

Lemma append_nil_r (a : string) : a ++ "" = a.
Proof. induction a as [|x a IH]; cbn; [reflexivity|now rewrite IH]. Qed.

Lemma append_nonempty_r (a b : string) : b <> "" -> a ++ b <> "".
Proof. destruct a; cbn; [tauto|discriminate]. Qed.

Lemma contains_refl s : contains s s.
Proof. exists "", "". cbn. now rewrite append_nil_r. Qed.

Lemma contains_app_l sub s t : contains sub s -> contains sub (s ++ t).
Proof.
  intros (pre & post & ->). exists pre, (post ++ t).
  now rewrite !append_assoc.
Qed.

Lemma contains_app_r sub s t : contains sub t -> contains sub (s ++ t).
Proof.
  intros (pre & post & ->). exists (s ++ pre), post.
  now rewrite !append_assoc.
Qed.

Lemma contains_trans a b c : contains a b -> contains b c -> contains a c.
Proof.
  intros (p1 & q1 & ->) (p2 & q2 & ->). exists (p2 ++ p1), (q1 ++ q2).
  now rewrite !append_assoc.
Qed.

(** Look for the part among the pieces a text was appended from. *)
Ltac find_part :=
  first [ apply contains_refl
        | apply contains_app_r; apply contains_refl
        | apply contains_app_l; find_part ].

Lemma indexed_fold (f : string * string -> AudioSegment -> nat -> string * string)
    (cmd : AudioSegment -> nat -> string) (line : nat -> string) :
  (forall st seg i, f st seg i = (fst st ++ cmd seg i, snd st ++ line i)) ->
  forall l n script fileList,
    fold_left (fun acc x => (Datatypes.S (fst acc), f (snd acc) x (fst acc))) l
              (n, (script, fileList)) =
    ((n + List.length l)%nat,
     (script ++ commandLines cmd n l,
      fileList ++ manifestLines line n (List.length l))).
Proof.
  intros Hf. induction l as [|x l IH]; intros n script fileList.
  - cbn. now rewrite Nat.add_0_r, !append_nil_r.
  - cbn [fold_left fst snd]. rewrite Hf, IH. cbn [fst snd List.length commandLines manifestLines].
    rewrite !append_assoc. f_equal. lia.
Qed.

Lemma forEachIndexed_lines (f : string * string -> AudioSegment -> nat -> string * string)
    (cmd : AudioSegment -> nat -> string) (line : nat -> string) l script :
  (forall st seg i, f st seg i = (fst st ++ cmd seg i, snd st ++ line i)) ->
  forEachIndexed f l (script, "") =
  (script ++ commandLines cmd 0 l, manifestLines line 0 (List.length l)).
Proof.
  intros Hf. unfold forEachIndexed.
  now rewrite (indexed_fold f cmd line Hf).
Qed.

Lemma unixLoop_eq filename platform config active script :
  unixLoop filename platform config active script =
  (script ++ commandLines
               (extractCommand platform config (inputFilename filename platform)) 0 active,
   manifestLines (unixManifestLine config) 0 (List.length active)).
Proof. unfold unixLoop. now apply forEachIndexed_lines. Qed.

Lemma winLoop_eq filename platform config active script :
  winLoop filename platform config active script =
  (script ++ commandLines (extractCommand platform config filename) 0 active,
   manifestLines winManifestLine 0 (List.length active)).
Proof. unfold winLoop. now apply forEachIndexed_lines. Qed.

Lemma commandLines_contains cmd x :
  forall l n, In x l -> exists index, contains (cmd x index) (commandLines cmd n l).
Proof.
  induction l as [|y l IH]; intros n Hin; [destruct Hin|].
  destruct Hin as [->|Hin]; cbn [commandLines].
  - exists n. apply contains_app_l, contains_refl.
  - destruct (IH (Datatypes.S n) Hin) as [index Hc].
    exists index. now apply contains_app_r.
Qed.

Lemma echoLines_prefix fileList script :
  exists added, echoLines fileList script = script ++ added.
Proof.
  unfold echoLines. generalize (splitLines "" fileList) as lines.
  intros lines. revert script.
  induction lines as [|line lines IH]; intros script; cbn [fold_left].
  - exists "". now rewrite append_nil_r.
  - destruct (String.eqb line ""); [apply IH|].
    destruct (IH (script ++ "echo " ++ line ++ NL)) as [added ->].
    exists (("echo " ++ line ++ NL) ++ added). now rewrite !append_assoc.
Qed.

(** Every extract command the loop emits is part of the generated script. *)
Lemma script_contains_commands filename platform config segs :
  contains (commandLines (extractCommand platform config (inputFilename filename platform))
                         0 (activeSegments segs config))
           (generateFfmpegScript filename platform config segs).
Proof.
  unfold generateFfmpegScript. destruct platform.
  - rewrite winLoop_eq. cbv beta iota zeta. change (inputFilename filename win) with filename.
    match goal with
    | |- context [echoLines ?fl ?sc] =>
        destruct (echoLines_prefix fl sc) as [added ->]
    end.
    destruct (truthy (bgMusicName config)); [destruct (negb (isAudioOnly _))|];
      find_part.
  - rewrite unixLoop_eq. cbv beta iota zeta.
    destruct (truthy (bgMusicName config)); [destruct (negb (isAudioOnly _))|];
      find_part.
Qed.

Lemma generateFfmpegScript_nonempty filename platform config segs :
  generateFfmpegScript filename platform config segs <> "".
Proof.
  unfold generateFfmpegScript. destruct platform.
  - destruct (winLoop _ _ _ _) as [script fileList].
    apply append_nonempty_r. discriminate.
  - destruct (unixLoop _ _ _ _) as [script fileList].
    apply append_nonempty_r. discriminate.
Qed.
End Strings.

(** C4.  With trimEnd <= trimStart the final duration is 0, but the active
    list built inside generateFfmpegScript is not empty: [oneTake] survives
    the filter under the empty range 10..10 (clipped to 10..10) and under
    the inverted range 5..3 (clipped to 5..3, for which the script asks
    ffmpeg for a duration of -2.0000 seconds). *)
Theorem trim_empty_range_keeps_segment :
  activeSegments oneTake emptyTrim = [mkSegment 10 10 false] /\
  calculateFinalDuration oneTake 10 10 = 0 /\
  activeSegments oneTake invertedTrim = [mkSegment 5 3 false] /\
  calculateFinalDuration oneTake 5 3 = 0 /\
  extractCommand unix invertedTrim "talk.mp4" (mkSegment 5 3 false) 0 =
    ("ffmpeg -y -i " ++ DQ ++ "talk.mp4" ++ DQ ++
     " -ss 5.0000 -t -2.0000 -c:v libx264 -preset ultrafast -c:a aac " ++
     DQ ++ "segments/part_0000.mp4" ++ DQ ++ NL)%string.
Proof. repeat split; reflexivity. Qed.

Lemma codecSelection_declared ext :
  In ext ExportFormat_values -> In (ext, codecSelection ext) codecTable.
Proof.
  cbn [ExportFormat_values In]. intros H.
  repeat (destruct H as [<-|H]; [cbn; tauto|]). destruct H.
Qed.

Lemma codecSelection_default ext :
  ~ In ext ExportFormat_values ->
  codecSelection ext = ("libx264", "aac")%string /\ isAudioOnly ext = false.
Proof.
  cbn [ExportFormat_values In]. intros H.
  unfold codecSelection, isAudioOnly. cbn [existsb].
  destruct (String.eqb_spec ext "mp3"); [subst ext; exfalso; apply H; auto 10|].
  destruct (String.eqb_spec ext "wav"); [subst ext; exfalso; apply H; auto 10|].
  destruct (String.eqb_spec ext "aac"); [subst ext; exfalso; apply H; auto 10|].
  destruct (String.eqb_spec ext "avi"); [subst ext; exfalso; apply H; auto 10|].
  destruct (String.eqb_spec ext "mov"); [subst ext; exfalso; apply H; auto 10|].
  split; reflexivity.
Qed.

(** C5, as the code has it.  Script generation has no error path: for
    every format string it returns script text.  The codec pair comes from
    defaults with overrides: each of the six declared formats gets its pair
    of [codecTable], and any other string falls back to the default pair
    libx264 / aac with video kept. *)
Theorem generateFfmpegScript_total filename platform config segs :
  generateFfmpegScript filename platform config segs <> EmptyString /\
  (In (format config) ExportFormat_values ->
   In (format config, codecSelection (format config)) codecTable) /\
  (~ In (format config) ExportFormat_values ->
   codecSelection (format config) = ("libx264", "aac")%string /\
   isAudioOnly (format config) = false).
Proof.
  split; [apply generateFfmpegScript_nonempty|].
  split; [apply codecSelection_declared|apply codecSelection_default].
Qed.

Lemma generateFfmpegScript_total_witness :
  In ("avi", codecSelection "avi")%string codecTable.
Proof.
  apply (generateFfmpegScript_total "clip.avi" unix (mkConfig "avi"%string 0 2 None) shortTake).
  cbn. tauto.
Defined.

(** C5 as stated fails: the format string mkv is in no table, yet a script
    is produced, with the default codec pair. *)
Lemma unsupported_format_gets_default_codecs :
  ~ In "mkv"%string ExportFormat_values /\
  codecSelection "mkv"%string = ("libx264", "aac")%string /\
  generateFfmpegScript "in.mkv" unix mkvExport shortTake = mkvScript.
Proof.
  split; [|split; reflexivity].
  cbn. intros H. repeat (destruct H as [H|H]; [discriminate|]). exact H.
Qed.

(** Where manifest and extract commands do agree: always in the unix
    script, and in the batch script for the video formats. *)
Lemma manifest_names_extract_output platform config input seg index :
  unixManifestLine config index = ("file '" ++ segName config index ++ "'" ++ NL)%string /\
  (exists command,
     extractCommand platform config input seg index =
     (command ++ DQ ++ segmentDir platform ++ segName config index ++ DQ ++ NL)%string) /\
  (isAudioOnly (format config) = false ->
   winManifestLine index = ("file '" ++ segName config index ++ "'" ++ NL)%string).
Proof.
  split; [reflexivity|]. split.
  - unfold extractCommand. eexists. rewrite <- !append_assoc. reflexivity.
  - intros H. unfold winManifestLine, segName, ext. rewrite H.
    rewrite !append_assoc. reflexivity.
Qed.

(** C6.  In the batch script of an audio export the manifest does not list
    the files the extract commands write: for [shortTake] under [mp3Export]
    the extract command writes segments\part_0000.mp3 and the manifest line
    names part_0000.mp4. *)
Theorem batch_manifest_names_mp4 :
  winLoop "talk.mp3" win mp3Export (activeSegments shortTake mp3Export) "" =
    (("ffmpeg -y -i " ++ DQ ++ "talk.mp3" ++ DQ ++
      " -ss 0.0000 -t 2.0000 -vn -c:a libmp3lame " ++
      DQ ++ "segments\part_0000.mp3" ++ DQ ++ NL)%string,
     ("file 'part_0000.mp4'" ++ NL)%string) /\
  segName mp3Export 0 = "part_0000.mp3"%string /\
  generateFfmpegScript "talk.mp3" win mp3Export shortTake = mp3BatchScript.
Proof. repeat split; reflexivity. Qed.

Lemma toFixed4_zero x : x == 0 -> toFixed4 x = "0.0000"%string.
Proof.
  intros H. unfold toFixed4.
  assert (Hlt : Qltb x 0 = false) by (apply Qltb_ge; rewrite H; apply Qle_refl).
  assert (Hf : Qfloor (Qabs x * 10000 + (1 # 2)) = 0%Z) by (rewrite H; reflexivity).
  rewrite Hlt, Hf. reflexivity.
Qed.

Lemma extractCommand_zero_duration platform config input seg index :
  end_ seg - start seg == 0 ->
  contains " -t 0.0000 " (extractCommand platform config input seg index).
Proof.
  intros H. unfold extractCommand. cbv zeta. rewrite (toFixed4_zero _ H).
  exists ("ffmpeg -y -i " ++ DQ ++ input ++ DQ ++ " -ss " ++ toFixed4 (start seg))%string.
  eexists. rewrite !append_assoc. reflexivity.
Qed.

Lemma keepSegment_false_iff config s :
  isSilent s = false ->
  (keepSegment config s = false <->
   end_ s < trimStart config \/ trimEnd config < start s).
Proof.
  intros Hs. unfold keepSegment. rewrite Hs.
  destruct (Qltb_spec (end_ s) (trimStart config));
    destruct (Qltb_spec (trimEnd config) (start s)); cbn [orb];
    split; intros H; try tauto; try discriminate.
Qed.

(** C10, as the code has it.  The trim filter of generateFfmpegScript drops
    a non-silent segment only when its end is strictly below trimStart or
    its start is strictly above trimEnd.  Hence, for a trim range with
    trimStart <= trimEnd, a non-silent segment with start <= end whose end
    equals trimStart, or whose start equals trimEnd, is kept, is clipped to
    a zero-length interval, and the generated script holds its extract
    command, with duration 0.0000. *)
Theorem trim_boundary_segment_emitted filename platform config segs s :
  In s segs ->
  isSilent s = false ->
  start s <= end_ s ->
  trimStart config <= trimEnd config ->
  end_ s == trimStart config \/ start s == trimEnd config ->
  (forall s', isSilent s' = false ->
     (keepSegment config s' = false <->
      end_ s' < trimStart config \/ trimEnd config < start s')) /\
  keepSegment config s = true /\
  In (clampSegment config s) (activeSegments segs config) /\
  end_ (clampSegment config s) - start (clampSegment config s) == 0 /\
  exists index,
    contains (extractCommand platform config (inputFilename filename platform)
                             (clampSegment config s) index)
             (generateFfmpegScript filename platform config segs) /\
    contains " -t 0.0000 "
             (extractCommand platform config (inputFilename filename platform)
                             (clampSegment config s) index).
Proof.
  intros Hin Hs Hse Htrim Hb.
  assert (Hkeep : keepSegment config s = true).
  { destruct (keepSegment config s) eqn:E; [reflexivity|].
    apply (keepSegment_false_iff config s Hs) in E. exfalso.
    destruct Hb as [Hb|Hb]; destruct E as [E|E]; lra. }
  assert (Hact : In (clampSegment config s) (activeSegments segs config)).
  { unfold activeSegments. apply in_map. apply filter_In. now split. }
  assert (Hzero : end_ (clampSegment config s) - start (clampSegment config s) == 0).
  { unfold clampSegment, Math_max, Math_min. cbn [start end_].
    destruct Hb as [Hb|Hb]; qcases; lra. }
  split; [intros s'; apply keepSegment_false_iff|].
  repeat split; try assumption.
  destruct (commandLines_contains
              (extractCommand platform config (inputFilename filename platform))
              _ _ 0%nat Hact) as [index Hc].
  exists index. split.
  - eapply contains_trans; [exact Hc|apply script_contains_commands].
  - now apply extractCommand_zero_duration.
Qed.

Lemma trim_boundary_segment_emitted_witness :
  keepSegment boundaryTrim (mkSegment 0 2 false) = true /\
  In (mkSegment 2 2 false) (activeSegments scenarioC boundaryTrim).
Proof.
  destruct (trim_boundary_segment_emitted "talk.mp4" unix boundaryTrim scenarioC
              (mkSegment 0 2 false)) as (_ & Hk & Hi & _).
  - cbn. tauto.
  - reflexivity.
  - vm_compute. discriminate.
  - vm_compute. discriminate.
  - left. reflexivity.
  - split; [exact Hk|exact Hi].
Defined.

(** C10 as stated fails when the trim range is inverted: under the range
    5..3 the segment 4..5, whose end equals trimStart, is dropped (its
    start lies above trimEnd), and the segment 0..5, whose end equals
    trimStart as well, is kept but clipped to 5..3, so its extract command
    asks for a duration of -2.0000 and not 0.0000. *)
Lemma trim_boundary_needs_ordered_range :
  end_ (mkSegment 4 5 false) = trimStart invertedTrim /\
  keepSegment invertedTrim (mkSegment 4 5 false) = false /\
  end_ (mkSegment 0 5 false) = trimStart invertedTrim /\
  activeSegments [mkSegment 0 5 false] invertedTrim = [mkSegment 5 3 false] /\
  toFixed4 (end_ (mkSegment 5 3 false) - start (mkSegment 5 3 false)) =
    "-2.0000"%string.
Proof. repeat split; reflexivity. Qed.

(* ------------------------------------------------------------------ *)
(** * The analysis service *)

(** C8.  analyzeContent never propagates an error: its promise always
    resolves.  When the try block fails (no API key, the client or the
    request throws, the response does not parse) the result is the
    placeholder, whose tags are exactly error and offline and whose
    viralScore is 0; it is a value of the same record type as a successful
    analysis, which is passed through unchanged. *)
Theorem analyzeContent_never_throws {E : GeminiEnv} filename context :
  (exists result, analyzeContent filename context = Returned result) /\
  (forall e, analyzeBody filename context = Thrown e ->
             analyzeContent filename context = Returned fallbackResult) /\
  (forall result, analyzeBody filename context = Returned result ->
                  analyzeContent filename context = Returned result) /\
  (truthy API_KEY = false ->
   analyzeContent filename context = Returned fallbackResult) /\
  (forall key e,
     API_KEY = Some key -> newGoogleGenAI key = Thrown e ->
     analyzeContent filename context = Returned fallbackResult) /\
  (forall key ai e,
     API_KEY = Some key -> key <> EmptyString -> newGoogleGenAI key = Returned ai ->
     generateContent ai "gemini-3-flash-preview" (prompt filename context) = Thrown e ->
     analyzeContent filename context = Returned fallbackResult) /\
  (forall key ai response e,
     API_KEY = Some key -> key <> EmptyString -> newGoogleGenAI key = Returned ai ->
     generateContent ai "gemini-3-flash-preview" (prompt filename context) =
       Returned response ->
     JSON_parse response = Thrown e ->
     analyzeContent filename context = Returned fallbackResult) /\
  tags fallbackResult = ["error"; "offline"]%string /\
  viralScore fallbackResult = 0.
Proof.
  unfold analyzeContent, tryCatch.
  repeat split.
  - destruct (analyzeBody filename context); eexists; reflexivity.
  - intros e ->. reflexivity.
  - intros result ->. reflexivity.
  - intros Hk. unfold analyzeBody, getGeminiClient. rewrite Hk. reflexivity.
  - intros key e Hk Hc. unfold analyzeBody, getGeminiClient. rewrite Hk.
    destruct (truthy (Some key)); [rewrite Hc|]; reflexivity.
  - intros key ai e Hk Hne Hc Hg. unfold analyzeBody, getGeminiClient. rewrite Hk.
    cbn [truthy]. apply String.eqb_neq in Hne. rewrite Hne. cbn [negb bind].
    rewrite Hc. cbn [bind]. rewrite Hg. reflexivity.
  - intros key ai response e Hk Hne Hc Hg Hp. unfold analyzeBody, getGeminiClient.
    rewrite Hk. cbn [truthy]. apply String.eqb_neq in Hne. rewrite Hne. cbn [negb bind].
    rewrite Hc. cbn [bind]. rewrite Hg. cbn [bind]. rewrite Hp. reflexivity.
Qed.

Lemma analyzeContent_never_throws_witness :
  @analyzeContent offlineEnv "clip.mp4" None = Returned (@fallbackResult).
Proof.
  apply (@analyzeContent_never_throws offlineEnv "clip.mp4" None).
  reflexivity.
Defined.

(* ------------------------------------------------------------------ *)
(** * Further properties: trim filter and statistics *)

Lemma durationStep_bounds tStart tEnd d s :
  start s <= end_ s -> tStart <= tEnd ->
  d <= durationStep tStart tEnd d s /\
  durationStep tStart tEnd d s + Math_max 0 (tEnd - Math_max (end_ s) tStart) <=
  d + Math_max 0 (tEnd - Math_max (start s) tStart).
Proof.
  intros Hs Ht. unfold durationStep, Math_max, Math_min.
  destruct (isSilent s); qcases; cbn [orb]; split; lra.
Qed.

Lemma finalDuration_fold_bound tStart tEnd :
  tStart <= tEnd ->
  forall l d,
    gapless l -> forwardSegments l ->
    d <= fold_left (durationStep tStart tEnd) l d /\
    fold_left (durationStep tStart tEnd) l d <=
    d + match l with
        | [] => 0
        | s :: _ => Math_max 0 (tEnd - Math_max (start s) tStart)
        end.
Proof.
  intros Ht. induction l as [|s l IH]; intros d Hg Hf; cbn [fold_left].
  - split; lra.
  - destruct Hg as [Hsl Hg].
    assert (Hs : start s <= end_ s) by (apply Hf; now left).
    assert (Hf' : forwardSegments l) by (intros x Hx; apply Hf; now right).
    destruct (durationStep_bounds tStart tEnd d s Hs Ht) as [B1 B2].
    destruct (IH (durationStep tStart tEnd d s) Hg Hf') as [I1 I2].
    split; [lra|].
    destruct l as [|s' l].
    + cbn [fold_left] in *. unfold Math_max in *. revert B2. qcases; lra.
    + rewrite <- Hsl in I2. lra.
Qed.

Lemma finalDuration_bounds segs tStart tEnd :
  gapless segs -> forwardSegments segs -> tStart <= tEnd ->
  0 <= calculateFinalDuration segs tStart tEnd /\
  calculateFinalDuration segs tStart tEnd <= tEnd - tStart.
Proof.
  intros Hg Hf Ht. unfold calculateFinalDuration.
  destruct (finalDuration_fold_bound tStart tEnd Ht segs 0 Hg Hf) as [H1 H2].
  split; [assumption|].
  eapply Qle_trans; [exact H2|].
  destruct segs as [|s l]; [lra|].
  unfold Math_max. qcases; lra.
Qed.

Lemma scenarioC_gapless_forward : gapless scenarioC /\ forwardSegments scenarioC.
Proof.
  split.
  - cbn. repeat split.
  - intros s Hs. cbn in Hs.
    repeat (destruct Hs as [<-|Hs]; [vm_compute; discriminate|]). destruct Hs.
Defined.

Lemma extracted_fold_agrees config :
  trimStart config <= trimEnd config ->
  forall segs d d',
    forwardSegments segs -> d == d' ->
    fold_left (durationStep (trimStart config) (trimEnd config)) segs d ==
    fold_left (fun total seg => total + (end_ seg - start seg))
              (activeSegments segs config) d'.
Proof.
  intros Ht. unfold activeSegments.
  induction segs as [|s segs IH]; intros d d' Hf Hd; cbn [fold_left filter map].
  - exact Hd.
  - assert (Hs : start s <= end_ s) by (apply Hf; now left).
    assert (Hf' : forwardSegments segs) by (intros x Hx; apply Hf; now right).
    unfold keepSegment at 1. unfold durationStep at 2.
    destruct (isSilent s); [now apply IH|].
    destruct (Qltb_spec (end_ s) (trimStart config)); cbn [orb]; [now apply IH|].
    destruct (Qltb_spec (trimEnd config) (start s)); cbn [orb]; [now apply IH|].
    cbn [map fold_left]. apply IH; [assumption|].
    unfold clampSegment, Math_max, Math_min. cbn [start end_].
    qcases; lra.
Qed.

(** X2.  For segments that run forward and a trim range with
    trimStart <= trimEnd, the final duration shown by the statistics equals
    the total duration of the extract commands of the script: the two
    computations of the trimmed active time agree. *)
Theorem calculateFinalDuration_matches_script segs config :
  forwardSegments segs -> trimStart config <= trimEnd config ->
  calculateFinalDuration segs (trimStart config) (trimEnd config) ==
  extractedDuration (activeSegments segs config).
Proof.
  intros Hf Ht. unfold calculateFinalDuration, extractedDuration.
  apply extracted_fold_agrees; [assumption|assumption|reflexivity].
Qed.

Lemma calculateFinalDuration_matches_script_witness :
  calculateFinalDuration scenarioC 2 5 ==
  extractedDuration (activeSegments scenarioC boundaryTrim).
Proof.
  apply (calculateFinalDuration_matches_script scenarioC boundaryTrim).
  - apply scenarioC_gapless_forward.
  - vm_compute. discriminate.
Defined.

(** X3.  Every segment of the active list built by generateFfmpegScript is
    non-silent and lies inside the trim range; it is the clamped copy of a
    non-silent input segment, and when that segment runs forward and
    trimStart <= trimEnd the clip does not run backward. *)
Theorem activeSegments_inside_trim segs config clip :
  In clip (activeSegments segs config) ->
  isSilent clip = false /\
  trimStart config <= start clip /\
  end_ clip <= trimEnd config /\
  exists s, In s segs /\ isSilent s = false /\ clip = clampSegment config s /\
            (start s <= end_ s -> trimStart config <= trimEnd config ->
             start clip <= end_ clip).
Proof.
  unfold activeSegments. intros Hin. apply in_map_iff in Hin.
  destruct Hin as (s & <- & Hs). apply filter_In in Hs. destruct Hs as [Hs Hk].
  assert (Hsil : isSilent s = false).
  { unfold keepSegment in Hk. destruct (isSilent s); [discriminate|reflexivity]. }
  assert (Hno : ~ (end_ s < trimStart config \/ trimEnd config < start s)).
  { intros H. apply (keepSegment_false_iff config s Hsil) in H. congruence. }
  split; [reflexivity|].
  unfold clampSegment, Math_max, Math_min. cbn [start end_].
  split; [qcases; lra|]. split; [qcases; lra|].
  exists s. repeat split; try assumption.
  intros H1 H2. qcases; lra.
Qed.

Lemma activeSegments_inside_trim_witness :
  trimStart boundaryTrim <= start (mkSegment 3 5 false) /\
  end_ (mkSegment 3 5 false) <= trimEnd boundaryTrim.
Proof.
  destruct (activeSegments_inside_trim scenarioC boundaryTrim (mkSegment 3 5 false))
    as (_ & H1 & H2 & _).
  - cbn. right. left. reflexivity.
  - split; assumption.
Defined.

(* ------------------------------------------------------------------ *)
(** * Further properties: the detector *)

Lemma adjacent_middle R l1 a b l2 :
  adjacent R (l1 ++ a :: b :: l2) -> R a b.
Proof.
  induction l1 as [|x l1 IH]; cbn [app adjacent].
  - tauto.
  - intros [_ H]. now apply IH.
Qed.

Lemma gate_id m s :
  (isSilent s = true -> m <= end_ s - start s) -> gate m s = s.
Proof.
  intros H. unfold gate. destruct (isSilent s); [|reflexivity].
  destruct (Qltb_spec (end_ s - start s) m) as [Hlt|_]; [|reflexivity].
  exfalso. specialize (H eq_refl). lra.
Qed.

Lemma merge_fold_fixpoint m :
  forall rest done,
    alternating (done ++ rest) -> silencesAtLeast m rest ->
    fold_left (mergeStep m) rest done = done ++ rest.
Proof.
  induction rest as [|q rest IH]; intros done Ha Hs; cbn [fold_left].
  - now rewrite app_nil_r.
  - assert (Hq : gate m q = q) by (apply gate_id; apply Hs; now left).
    assert (Hstep : mergeStep m done q = done ++ [q]).
    { unfold mergeStep. rewrite Hq.
      destruct (lastSegment done) as [l|] eqn:El; [|reflexivity].
      destruct (lastSegment_inv _ _ El) as [d0 ->].
      rewrite <- app_assoc in Ha. cbn [app] in Ha. apply adjacent_middle in Ha.
      apply eqb_false_iff in Ha. now rewrite Ha. }
    rewrite Hstep, IH.
    + now rewrite <- app_assoc.
    + now rewrite <- app_assoc.
    + intros s Hin. apply Hs. now right.
Qed.

(** X4.  The gate-and-merge pass of detectSilence changes nothing on a
    timeline that already alternates and has no silence shorter than the
    minimum: running the pass twice gives what running it once gives. *)
Theorem gateAndMerge_fixpoint m l :
  alternating l -> silencesAtLeast m l -> gateAndMerge m l = l.
Proof.
  intros Ha Hs. unfold gateAndMerge.
  now rewrite (merge_fold_fixpoint m l []).
Qed.

Lemma gateAndMerge_fixpoint_witness :
  gateAndMerge (1 # 2) scenarioC = scenarioC.
Proof.
  apply gateAndMerge_fixpoint.
  - cbn. repeat split; discriminate.
  - intros s Hs Hsil. cbn in Hs.
    repeat (destruct Hs as [<-|Hs]; [try discriminate Hsil; vm_compute; discriminate|]).
    destruct Hs.
Defined.

Lemma Qdiv_lt_mono rate j i :
  0 < rate -> (j < i)%Z -> inject_Z j / rate < inject_Z i / rate.
Proof.
  intros Hr Hji. unfold Qdiv. apply Qmult_lt_compat_r.
  - now apply Qinv_lt_0_compat.
  - now rewrite <- Zlt_Qlt.
Qed.

Lemma Qdiv_nonneg rate j :
  0 < rate -> (0 <= j)%Z -> 0 <= inject_Z j / rate.
Proof.
  intros Hr Hj. unfold Qdiv. apply Qmult_le_0_compat.
  - change 0 with (inject_Z 0). now rewrite <- Zle_Qle.
  - apply Qlt_le_weak. now apply Qinv_lt_0_compat.
Qed.

Section ProperRuns.
Context {M : MathLib}.
Variable rawData : list Q.
Variable rate : Q.
Variable threshold : Q.
Hypothesis rate_pos : 0 < rate.

#[local] Abbreviation total := (inject_Z (samples rawData) / rate).

Lemma windowStep_proper i frame st :
  (0 <= i < samples rawData)%Z -> (1 <= windowSize rate)%Z ->
  runsProper rawData rate i st ->
  runsProper rawData rate (i + windowSize rate) (windowStep rate i frame st).
Proof.
  intros Hi Hw (Hsegs & j & Hj & Hjr & Hji). unfold windowStep.
  destruct (Z.eqb_spec i 0) as [->|Hne].
  - cbn [isCurrentlySilent segments segmentStart]. rewrite eqb_reflx. cbn [negb].
    split; [exact Hsegs|]. exists 0%Z. cbn [segmentStart].
    split; [unfold Qdiv; now rewrite Qmult_0_l|]. lia.
  - destruct Hji as [Hz|Hji]; [contradiction|].
    destruct (Bool.eqb frame (isCurrentlySilent st)); cbn [negb].
    + split; [exact Hsegs|]. exists j. repeat split; try assumption; lia.
    + split.
      * cbn [segments]. intros s Hin. apply in_app_or in Hin.
        destruct Hin as [Hin|[<-|[]]]; [now apply Hsegs|].
        unfold properSegment. cbn [start end_].
        pose proof (Qdiv_nonneg rate j rate_pos (proj1 Hjr)) as H0.
        pose proof (Qdiv_lt_mono rate j i rate_pos Hji) as H1.
        pose proof (Qdiv_lt_mono rate i (samples rawData) rate_pos (proj2 Hi)) as H2.
        revert Hj H0 H1 H2.
        generalize (inject_Z j / rate), (inject_Z i / rate), total, (segmentStart st).
        intros a b c d Hj H0 H1 H2. lra.
      * exists i. cbn [segmentStart]. split; [reflexivity|]. lia.
Qed.

Lemma windowLoop_proper :
  (1 <= windowSize rate)%Z ->
  forall fuel i st st',
    (0 <= i)%Z ->
    runsProper rawData rate i st ->
    windowLoop rawData rate threshold fuel i st = Some st' ->
    exists i', runsProper rawData rate i' st'.
Proof.
  intros Hw. unfold windowLoop.
  induction fuel as [|fuel IH]; intros i st st' Hi Hok H; simpl in H.
  - destruct (i <? samples rawData)%Z; [discriminate|]. injection H as <-. now exists i.
  - destruct (Z.ltb_spec i (samples rawData)); [|injection H as <-; now exists i].
    eapply IH; [ | |exact H].
    + lia.
    + unfold windowBody. apply windowStep_proper; [lia|assumption|assumption].
Qed.

Lemma finalPush_proper i st :
  runsProper rawData rate i st ->
  forall s, In s (finalPush rawData rate st) -> properSegment total s.
Proof.
  intros (Hsegs & j & Hj & Hjr & _) s Hin. unfold finalPush in Hin.
  apply in_app_or in Hin. destruct Hin as [Hin|[<-|[]]]; [now apply Hsegs|].
  unfold properSegment. cbn [start end_].
  pose proof (Qdiv_nonneg rate j rate_pos (proj1 Hjr)) as H0.
  pose proof (Qdiv_lt_mono rate j (samples rawData) rate_pos (proj2 Hjr)) as H1.
  revert Hj H0 H1.
  generalize (inject_Z j / rate), total, (segmentStart st).
  intros a c d Hj H0 H1. lra.
Qed.
End ProperRuns.

Lemma mergeStep_proper m tot p q merged :
  mergedProper tot p merged ->
  end_ p = start q -> properSegment tot q ->
  mergedProper tot q (mergeStep m merged q).
Proof.
  intros (Hall & l & Hl & He) Hpq (Hq0 & Hq1 & Hq2).
  destruct (lastSegment_inv _ _ Hl) as [m0 ->].
  unfold mergeStep. rewrite Hl.
  destruct (Bool.eqb (isSilent l) (isSilent (gate m q))).
  - rewrite setLastEnd_snoc. split.
    + intros s Hin. apply in_app_or in Hin. destruct Hin as [Hin|[<-|[]]].
      * apply Hall. apply in_or_app. now left.
      * destruct (Hall l) as (L0 & L1 & L2); [apply in_or_app; right; now left|].
        unfold properSegment. cbn [start end_]. rewrite gate_end.
        rewrite He, Hpq in L1. repeat split; lra.
    + eexists. split; [apply lastSegment_snoc|]. cbn [end_]. apply gate_end.
  - split.
    + intros s Hin. apply in_app_or in Hin. destruct Hin as [Hin|[<-|[]]].
      * now apply Hall.
      * unfold properSegment. rewrite gate_start, gate_end. repeat split; assumption.
    + eexists. split; [apply lastSegment_snoc|]. apply gate_end.
Qed.

Lemma merge_fold_proper m tot :
  forall rest p merged,
    mergedProper tot p merged ->
    gapless (p :: rest) ->
    (forall s, In s rest -> properSegment tot s) ->
    forall s, In s (fold_left (mergeStep m) rest merged) -> properSegment tot s.
Proof.
  induction rest as [|q rest IH]; intros p merged Hok Hg Hall; cbn [fold_left].
  - destruct Hok as [H _]. exact H.
  - destruct Hg as [Hpq Hg].
    apply (IH q).
    + apply (mergeStep_proper m tot p q merged); try assumption. apply Hall. now left.
    + exact Hg.
    + intros s Hin. apply Hall. now right.
Qed.

Lemma gateAndMerge_proper m tot raw :
  gapless raw ->
  (forall s, In s raw -> properSegment tot s) ->
  forall s, In s (gateAndMerge m raw) -> properSegment tot s.
Proof.
  intros Hg Hall. destruct raw as [|r rest]; [intros s []|].
  unfold gateAndMerge. cbn [fold_left]. unfold mergeStep at 2. cbn [lastSegment rev app].
  apply (merge_fold_proper m tot rest r).
  - split.
    + intros s [<-|[]]. unfold properSegment. rewrite gate_start, gate_end.
      apply Hall. now left.
    + eexists. split; [reflexivity|apply gate_end].
  - exact Hg.
  - intros s Hin. apply Hall. now right.
Qed.

Lemma detected_segments_proper {M : MathLib} buf thresholdDb minSilenceDuration segs :
  20 <= sampleRate buf ->
  channelData0 buf <> [] ->
  detectSilence buf thresholdDb minSilenceDuration = Some segs ->
  forall s, In s segs -> properSegment (totalDuration buf) s.
Proof.
  intros Hrate Hne H. unfold detectSilence, detectSilence_fuel in H.
  destruct (windowLoop _ _ _ _ 0%Z initState) as [st|] eqn:Hloop; [|discriminate].
  injection H as <-.
  assert (Hpos : 0 < sampleRate buf) by lra.
  assert (Hw : (1 <= windowSize (sampleRate buf))%Z) by now apply windowSize_ge_1.
  assert (Hs : (0 < samples (channelData0 buf))%Z).
  { unfold samples. destruct (channelData0 buf); [congruence|cbn [List.length]; lia]. }
  assert (Hinit : runsProper (channelData0 buf) (sampleRate buf) 0 initState).
  { split; [intros s Hin; destruct Hin|]. exists 0%Z. cbn [segmentStart initState].
    split; [unfold Qdiv; now rewrite Qmult_0_l|lia]. }
  destruct (windowLoop_proper (channelData0 buf) (sampleRate buf) _ Hpos Hw _ _ _ _
              (Z.le_refl 0) Hinit Hloop) as [i' Hproper].
  apply gateAndMerge_proper.
  - apply windowLoop_from_init in Hloop.
    now destruct (finalPush_raw (channelData0 buf) (sampleRate buf) st Hloop) as (_ & H2 & _).
  - now apply (finalPush_proper (channelData0 buf) (sampleRate buf) Hpos i').
Qed.

(** X5.  On a non-empty buffer sampled at 20 Hz or more, every segment
    detectSilence returns has positive length and lies inside
    [0, sampleCount/sampleRate]: no zero-length or backward segment is ever
    produced. *)
Theorem detectSilence_proper_segments {M : MathLib} buf thresholdDb minSilenceDuration segs :
  20 <= sampleRate buf ->
  channelData0 buf <> [] ->
  detectSilence buf thresholdDb minSilenceDuration = Some segs ->
  forall s, In s segs ->
    0 <= start s /\ start s < end_ s /\ end_ s <= totalDuration buf.
Proof. apply detected_segments_proper. Qed.

Lemma detectSilence_proper_segments_witness :
  0 <= 0 /\ 0 < 2 / 40 /\ 2 / 40 <= totalDuration demoBuffer.
Proof.
  apply (@detectSilence_proper_segments rationalMath demoBuffer (-40) (1 # 20)
           [mkSegment 0 (2 / 40) true; mkSegment (2 / 40) (4 / 40) false;
            mkSegment (4 / 40) (7 / 40) true]
           ltac:(vm_compute; discriminate) ltac:(discriminate) eq_refl
           (mkSegment 0 (2 / 40) true)).
  left. reflexivity.
Defined.

Lemma spec_frames_uniform {M : MathLib} thresholdDb c w :
  forall ws i,
    (forall window, In window ws -> spec_isSilent thresholdDb window = c) ->
    Forall (fun p => snd p = c) (spec_frames thresholdDb i w ws).
Proof.
  induction ws as [|window ws IH]; intros i H; cbn [spec_frames].
  - constructor.
  - constructor.
    + cbn [snd]. apply H. now left.
    + apply IH. intros x Hx. apply H. now right.
Qed.

Lemma windowStep_uniform rate i c :
  windowStep rate i c (mkState [] c 0) = mkState [] c 0.
Proof.
  unfold windowStep. destruct (i =? 0)%Z;
    cbn [isCurrentlySilent segments segmentStart]; rewrite eqb_reflx; reflexivity.
Qed.

Lemma fold_windowStep_uniform rate c frames :
  Forall (fun p => snd p = c) frames ->
  fold_left (fun st p => windowStep rate (fst p) (snd p) st) frames (mkState [] c 0) =
  mkState [] c 0.
Proof.
  induction 1 as [|p frames Hp _ IH]; cbn [fold_left]; [reflexivity|].
  rewrite Hp, windowStep_uniform. exact IH.
Qed.

(** X6.  When every window of a non-empty buffer (sampled at 20 Hz or
    more) gets the same classification, detectSilence returns exactly one
    segment, from 0 to sampleCount/sampleRate.  It is silent only if the
    windows are silent and the whole buffer is at least minSilenceDuration
    long: an all-quiet buffer shorter than the minimum comes back as one
    active segment. *)
Theorem detectSilence_uniform {M : MathLib} buf thresholdDb minSilenceDuration c :
  20 <= sampleRate buf ->
  channelData0 buf <> [] ->
  (forall window,
     In window (spec_windows (Z.to_nat (windowSize (sampleRate buf))) (channelData0 buf)) ->
     spec_isSilent thresholdDb window = c) ->
  detectSilence buf thresholdDb minSilenceDuration =
  Some [ {| start := 0;
            end_ := totalDuration buf;
            isSilent := c && negb (Qltb (totalDuration buf - 0) minSilenceDuration) |} ].
Proof.
  intros Hrate Hne Hall.
  assert (Hw : (1 <= windowSize (sampleRate buf))%Z) by now apply windowSize_ge_1.
  set (rawData := channelData0 buf) in *. set (rate := sampleRate buf) in *.
  pose proof (visitedFrames_spec rawData rate thresholdDb Hw (List.length rawData)
                [] rawData [] eq_refl (Nat.le_refl _)) as Hv.
  change (Z.of_nat (List.length (@nil Q))) with 0%Z in Hv. cbn [app] in Hv.
  apply (forWindows_more_fuel _ _ _ _ (loopFuel rawData)) in Hv;
    [|unfold loopFuel; lia].
  destruct (windowLoop_as_fold rawData rate thresholdDb _ _ _ _ initState Hv)
    as (new & Hnew & Hloop).
  cbn [app] in Hnew. subst new.
  fold (spec_windows (Z.to_nat (windowSize rate)) rawData) in Hloop.
  unfold detectSilence, detectSilence_fuel. fold rawData rate. rewrite Hloop.
  assert (Hst : fold_left (fun st p => windowStep rate (fst p) (snd p) st)
                  (spec_frames thresholdDb 0 (windowSize rate)
                     (spec_windows (Z.to_nat (windowSize rate)) rawData)) initState =
                mkState [] c 0).
  { pose proof (spec_frames_uniform thresholdDb c (windowSize rate) _ 0%Z Hall) as HF.
    destruct (spec_windows (Z.to_nat (windowSize rate)) rawData) as [|window ws] eqn:Ews.
    - exfalso. unfold spec_windows in Ews. destruct rawData; [congruence|discriminate].
    - cbn [spec_frames fold_left] in *.
      apply Forall_cons_iff in HF. destruct HF as [Hp Hrest].
      cbn [fst snd] in *. rewrite Hp.
      replace (windowStep rate 0 c initState) with (mkState [] c 0).
      * now apply fold_windowStep_uniform.
      * unfold windowStep. cbn [Z.eqb isCurrentlySilent segments segmentStart initState].
        now rewrite eqb_reflx. }
  rewrite Hst. unfold finalPush, gateAndMerge. cbn [segments segmentStart isCurrentlySilent app fold_left].
  unfold mergeStep. cbn [lastSegment rev app]. unfold gate, totalDuration. cbn [isSilent start end_].
  fold rawData rate.
  destruct c; cbn [andb]; [|reflexivity].
  destruct (Qltb _ minSilenceDuration); reflexivity.
Qed.

Lemma detectSilence_uniform_witness :
  @detectSilence rationalMath quietBuffer (-40) (1 # 2) =
  Some [ {| start := 0;
            end_ := totalDuration quietBuffer;
            isSilent := true && negb (Qltb (totalDuration quietBuffer - 0) (1 # 2)) |} ].
Proof.
  apply (@detectSilence_uniform rationalMath quietBuffer (-40) (1 # 2) true).
  - vm_compute. discriminate.
  - discriminate.
  - intros window Hin. vm_compute in Hin.
    repeat (destruct Hin as [<-|Hin]; [reflexivity|]). destruct Hin.
Defined.

Lemma detectSilence_gapless_forward {M : MathLib} buf thresholdDb minSilenceDuration segs :
  20 <= sampleRate buf ->
  detectSilence buf thresholdDb minSilenceDuration = Some segs ->
  gapless segs /\ forwardSegments segs.
Proof.
  intros Hrate H. split.
  - unfold detectSilence, detectSilence_fuel in H.
    destruct (windowLoop _ _ _ _ 0%Z initState) as [st|] eqn:Hloop; [|discriminate].
    injection H as <-. apply windowLoop_from_init in Hloop.
    destruct (finalPush_raw (channelData0 buf) (sampleRate buf) st Hloop)
      as (H1 & H2 & H3 & H4).
    now destruct (gateAndMerge_canonical minSilenceDuration _ _ H1 H2 H3 H4)
      as ((_ & Hg & _) & _).
  - destruct (channelData0 buf) as [|x l] eqn:E.
    + unfold detectSilence in H. rewrite detectSilence_empty in H by assumption.
      injection H as <-. intros s [<-|[]]. cbn [start end_].
      unfold Qdiv. rewrite Qmult_0_l. apply Qle_refl.
    + intros s Hin. apply Qlt_le_weak.
      eapply (detected_segments_proper buf thresholdDb minSilenceDuration segs);
        try eassumption.
      rewrite E. discriminate.
Qed.

(** X7.  For the timeline detectSilence returns (sample rate 20 Hz or
    more) and any trim range with tStart <= tEnd, the final duration is
    between 0 and tEnd - tStart; over the whole recording it is at most
    sampleCount/sampleRate. *)
Theorem finalDuration_of_detected_timeline {M : MathLib} buf thresholdDb
    minSilenceDuration segs tStart tEnd :
  20 <= sampleRate buf ->
  detectSilence buf thresholdDb minSilenceDuration = Some segs ->
  tStart <= tEnd ->
  0 <= calculateFinalDuration segs tStart tEnd /\
  calculateFinalDuration segs tStart tEnd <= tEnd - tStart /\
  calculateFinalDuration segs 0 (totalDuration buf) <= totalDuration buf.
Proof.
  intros Hrate H Ht.
  destruct (detectSilence_gapless_forward buf thresholdDb minSilenceDuration segs Hrate H)
    as [Hg Hf].
  destruct (finalDuration_bounds segs tStart tEnd Hg Hf Ht) as [H1 H2].
  repeat split; try assumption.
  assert (Htot : 0 <= totalDuration buf).
  { unfold totalDuration. apply Qdiv_nonneg; [lra|]. unfold samples. lia. }
  destruct (finalDuration_bounds segs 0 (totalDuration buf) Hg Hf Htot)
    as [_ H3].
  lra.
Qed.

Lemma finalDuration_of_detected_timeline_witness :
  calculateFinalDuration
    [mkSegment 0 (2 / 40) true; mkSegment (2 / 40) (4 / 40) false;
     mkSegment (4 / 40) (7 / 40) true] 0 (totalDuration demoBuffer)
  <= totalDuration demoBuffer.
Proof.
  apply (@finalDuration_of_detected_timeline rationalMath demoBuffer (-40) (1 # 20)
           _ 0 1).
  - vm_compute. discriminate.
  - reflexivity.
  - vm_compute. discriminate.
Defined.

(* ------------------------------------------------------------------ *)
(** * Further properties: the preview player *)

Lemma Qgeb_spec a b : reflect (b <= a) (Qgeb a b).
Proof.
  unfold Qgeb. destruct (Qle_bool b a) eqn:E; constructor.
  - now apply Qle_bool_iff.
  - intros H. apply Qle_bool_iff in H. congruence.
Qed.

Lemma virtualLoop_ge cfg realTime :
  forall segs v, v <= Preview.virtualLoop cfg realTime segs v.
Proof.
  induction segs as [|s segs IH]; intros v; cbn [Preview.virtualLoop]; [lra|].
  unfold Math_max, Math_min. destruct (isSilent s); cbn [negb andb]; qcases;
    first [ lra | eapply Qle_trans; [|apply IH]; lra ].
Qed.

Lemma virtualLoop_mono cfg realTime realTime' :
  realTime <= realTime' ->
  forall segs v v',
    v <= v' ->
    Preview.virtualLoop cfg realTime segs v <= Preview.virtualLoop cfg realTime' segs v'.
Proof.
  intros Hrt. induction segs as [|s segs IH]; intros v v' Hv;
    cbn [Preview.virtualLoop]; [exact Hv|].
  unfold Math_max, Math_min. destruct (isSilent s); cbn [negb andb]; qcases;
    first [ lra
          | apply IH; lra
          | eapply Qle_trans; [|apply virtualLoop_ge]; lra ].
Qed.

(** X8.  The virtual (background music) time of the preview is never
    negative and never decreases when the real playback time grows,
    whatever the segment list and the trim range. *)
Theorem calculateVirtualTime_monotone segs cfg realTime realTime' :
  realTime <= realTime' ->
  0 <= Preview.calculateVirtualTime segs cfg realTime /\
  Preview.calculateVirtualTime segs cfg realTime <=
  Preview.calculateVirtualTime segs cfg realTime'.
Proof.
  intros Hrt. unfold Preview.calculateVirtualTime.
  destruct (Qltb_spec realTime (Preview.trimStart cfg));
    destruct (Qltb_spec realTime' (Preview.trimStart cfg)).
  - split; lra.
  - split; [lra|apply virtualLoop_ge].
  - exfalso. lra.
  - split; [apply virtualLoop_ge|]. apply virtualLoop_mono; lra.
Qed.

Lemma calculateVirtualTime_monotone_witness :
  Preview.calculateVirtualTime scenarioC previewTrim 2 <=
  Preview.calculateVirtualTime scenarioC previewTrim 4.
Proof.
  apply (calculateVirtualTime_monotone scenarioC previewTrim 2 4).
  vm_compute. discriminate.
Defined.

Lemma durationStep_after_trim tStart tEnd d s :
  tEnd < start s -> durationStep tStart tEnd d s = d.
Proof.
  intros H. unfold durationStep. destruct (isSilent s); [reflexivity|].
  destruct (Qltb_spec tEnd (start s)); [|contradiction].
  now rewrite orb_true_r.
Qed.

Lemma finalDuration_after_trim tStart tEnd :
  forall rest s d,
    startSorted (s :: rest) -> tEnd < start s ->
    fold_left (durationStep tStart tEnd) rest d = d.
Proof.
  induction rest as [|s' rest IH]; intros s d Hs Hlt; cbn [fold_left]; [reflexivity|].
  destruct Hs as [Hss Hs].
  rewrite durationStep_after_trim by lra.
  apply (IH s'); [exact Hs|lra].
Qed.

Lemma virtualLoop_at_end cfg realTime :
  Preview.trimStart cfg <= Preview.trimEnd cfg ->
  Preview.trimEnd cfg <= realTime ->
  forall segs v d,
    startSorted segs -> v == d ->
    Preview.virtualLoop cfg realTime segs v ==
    fold_left (durationStep (Preview.trimStart cfg) (Preview.trimEnd cfg)) segs d.
Proof.
  intros Ht Hrt. induction segs as [|s segs IH]; intros v d Hs Hv;
    cbn [Preview.virtualLoop fold_left]; [exact Hv|].
  assert (Hs' : startSorted segs) by (destruct Hs as [_ Hs]; exact Hs).
  destruct (Qltb_spec (Preview.trimEnd cfg) (start s)) as [Hafter|Hin].
  - rewrite (durationStep_after_trim _ _ d s Hafter).
    destruct (Qltb_spec (end_ s) (Preview.trimStart cfg)); [now apply IH|].
    rewrite (finalDuration_after_trim _ _ segs s d Hs Hafter).
    destruct (Qltb_spec realTime (start s)); exact Hv.
  - unfold durationStep, Math_max, Math_min.
    destruct (isSilent s); cbn [negb andb]; qcases; cbn [orb];
      first [ exfalso; lra | apply IH; [assumption|lra] ].
Qed.

(** X9.  For a timeline sorted by start time and a trim range with
    trimStart <= trimEnd, the virtual time at (or after) trimEnd equals the
    final duration of the statistics: the background track runs exactly as
    long as the cut. *)
Theorem calculateVirtualTime_at_end segs cfg realTime :
  startSorted segs ->
  Preview.trimStart cfg <= Preview.trimEnd cfg ->
  Preview.trimEnd cfg <= realTime ->
  Preview.calculateVirtualTime segs cfg realTime ==
  calculateFinalDuration segs (Preview.trimStart cfg) (Preview.trimEnd cfg).
Proof.
  intros Hs Ht Hrt. unfold Preview.calculateVirtualTime, calculateFinalDuration.
  destruct (Qltb_spec realTime (Preview.trimStart cfg)); [exfalso; lra|].
  apply virtualLoop_at_end; try assumption. reflexivity.
Qed.

Lemma calculateVirtualTime_at_end_witness :
  Preview.calculateVirtualTime scenarioC previewTrim 5 ==
  calculateFinalDuration scenarioC 1 5.
Proof.
  apply (calculateVirtualTime_at_end scenarioC previewTrim 5).
  - cbn. repeat split; vm_compute; discriminate.
  - vm_compute. discriminate.
  - vm_compute. discriminate.
Defined.

Lemma autoSkipTarget_sound segs skip cfg playing time target :
  Preview.autoSkipTarget segs skip cfg playing time = Some target ->
  playing = true /\
  In target segs /\ isSilent target = false /\
  start target < Preview.trimEnd cfg /\
  exists current,
    In current segs /\ isSilent current = true /\
    start current <= time /\ time < end_ current /\ end_ current <= start target.
Proof.
  unfold Preview.autoSkipTarget, Preview.currentSegmentAt, Preview.nextActiveAfter.
  destruct skip; cbn [andb]; [|discriminate].
  destruct (0 <? List.length segs)%nat; cbn [andb]; [|discriminate].
  destruct playing; [|discriminate].
  destruct (find _ segs) as [current|] eqn:Ec; [|discriminate].
  destruct (isSilent current) eqn:Esil; [|discriminate].
  destruct (find (fun s => Qgeb (start s) (end_ current) && negb (isSilent s)) segs)
    as [next|] eqn:En; [|discriminate].
  destruct (Qltb_spec (start next) (Preview.trimEnd cfg)); [|discriminate].
  intros H. injection H as <-.
  apply find_some in Ec. destruct Ec as [Hc Hpc].
  apply find_some in En. destruct En as [Hn Hpn].
  apply andb_true_iff in Hpc. destruct Hpc as [Hc1 Hc2].
  apply andb_true_iff in Hpn. destruct Hpn as [Hn1 Hn2].
  destruct (Qgeb_spec time (start current)); [|discriminate].
  destruct (Qltb_spec time (end_ current)); [|discriminate].
  destruct (Qgeb_spec (start next) (end_ current)); [|discriminate].
  apply negb_true_iff in Hn2.
  repeat split; try assumption.
  exists current. repeat split; assumption.
Qed.



(** The jump out of the silent stretch of [scenarioC]: from 2.5 s to the
    start of the next active segment at 3 s. *)
Example handleTimeUpdate_skips_silence :
  option_map Preview.currentTime
    (Preview.videoRef (Preview.handleTimeUpdate scenarioC true previewTrim
                                                playingInSilence)) = Some 3.
Proof. reflexivity. Qed.




(** X12.  When handleTimeUpdate finds the playhead at or past trimEnd
    (trimStart <= trimEnd), it pauses the video, shows trimEnd and clears
    the playing state.  The background element is paused as well, but if
    the handler was created while playing and a music source is set, the
    sync step starts it again: it ends up playing although the video is
    paused. *)
Theorem handleTimeUpdate_at_trim_end segs skip cfg p video :
  Preview.videoRef p = Some video ->
  Preview.trimStart cfg <= Preview.trimEnd cfg ->
  Preview.trimEnd cfg <= Preview.currentTime video ->
  let p' := Preview.handleTimeUpdate segs skip cfg p in
  Preview.isPlaying p' = false /\
  Preview.currentTimeState p' = Preview.trimEnd cfg /\
  (exists video',
     Preview.videoRef p' = Some video' /\ Preview.paused video' = true /\
     (Preview.trimStart cfg <= Preview.currentTime video ->
      Preview.currentTime video' = Preview.currentTime video)) /\
  (forall bg,
     Preview.bgAudioRef p = Some bg ->
     exists bg',
       Preview.bgAudioRef p' = Some bg' /\
       Preview.paused bg' =
       negb (Preview.isPlaying p && negb (String.eqb (Preview.bgMusicSrc p) ""))).
Proof.
  intros Hv Ht He. unfold Preview.handleTimeUpdate. rewrite Hv.
  assert (Hskip : forall playing, Preview.autoSkipTarget segs skip cfg playing
                                    (Preview.trimEnd cfg) = None).
  { intros playing.
    destruct (Preview.autoSkipTarget segs skip cfg playing (Preview.trimEnd cfg))
      as [target|] eqn:Et; [|reflexivity].
    apply autoSkipTarget_sound in Et.
    destruct Et as (_ & _ & _ & H1 & c & _ & _ & _ & H2 & H3). exfalso. lra. }
  destruct (Qltb_spec (Preview.currentTime video) (Preview.trimStart cfg)) as [Hlow|Hlow];
    cbv beta iota zeta.
  - destruct (Qgeb_spec (Preview.trimStart cfg) (Preview.trimEnd cfg)); [|exfalso; lra].
    rewrite Hskip. cbn [Preview.isPlaying Preview.currentTimeState Preview.videoRef
                        Preview.bgAudioRef].
    repeat split.
    + eexists. split; [reflexivity|]. split; [reflexivity|]. intros. exfalso. lra.
    + intros bg Hb. rewrite Hb. cbn [option_map].
      destruct (String.eqb (Preview.bgMusicSrc p) ""); cbn [negb].
      * eexists. split; [reflexivity|]. cbn. now rewrite andb_false_r.
      * eexists. split; [reflexivity|]. unfold Preview.syncBackground.
        destruct (Qltb _ _); destruct (Preview.isPlaying p); reflexivity.
  - destruct (Qgeb_spec (Preview.currentTime video) (Preview.trimEnd cfg)); [|exfalso; lra].
    rewrite Hskip. cbn [Preview.isPlaying Preview.currentTimeState Preview.videoRef
                        Preview.bgAudioRef].
    repeat split.
    + eexists. split; [reflexivity|]. split; reflexivity.
    + intros bg Hb. rewrite Hb. cbn [option_map].
      destruct (String.eqb (Preview.bgMusicSrc p) ""); cbn [negb].
      * eexists. split; [reflexivity|]. cbn. now rewrite andb_false_r.
      * eexists. split; [reflexivity|]. unfold Preview.syncBackground.
        destruct (Qltb _ _); destruct (Preview.isPlaying p); reflexivity.
Qed.

Lemma handleTimeUpdate_at_trim_end_witness :
  Preview.isPlaying (Preview.handleTimeUpdate scenarioC true previewTrim playingPastEnd)
    = false /\
  option_map Preview.paused
    (Preview.bgAudioRef (Preview.handleTimeUpdate scenarioC true previewTrim
                                                  playingPastEnd)) = Some false.
Proof.
  destruct (handleTimeUpdate_at_trim_end scenarioC true previewTrim playingPastEnd
              (Preview.mkMedia 6 false) eq_refl) as (H1 & _ & _ & H4).
  - vm_compute. discriminate.
  - vm_compute. discriminate.
  - split; [exact H1|]. destruct (H4 _ eq_refl) as (bg' & -> & Hp).
    cbn [option_map]. rewrite Hp. reflexivity.
Defined.





(* ------------------------------------------------------------------ *)
(** * Further properties: the timeline ruler *)

Lemma getTime_inside duration x width :
  0 <= duration -> 0 < width -> 0 <= x -> x <= width ->
  0 <= Timeline.getTime duration x width /\
  Timeline.getTime duration x width <= duration.
Proof.
  intros Hd Hw H0 H1. unfold Timeline.getTime.
  assert (Hr0 : 0 <= x / width).
  { apply Qle_shift_div_l; [assumption|]. lra. }
  assert (Hr1 : x / width <= 1).
  { apply Qle_shift_div_r; [assumption|]. lra. }
  revert Hr0 Hr1. generalize (x / width). intros r Hr0 Hr1. split; nra.
Qed.

(** X16.  Dragging a trim handle keeps the trim range valid: if the range
    lies in [0, duration] and is at least 0.5 s long, then whatever the
    mouse position, the range handed to onTrimChange lies in [0, duration]
    and is at least 0.5 s long, and only the dragged end has moved. *)
Theorem drag_keeps_trim_range duration trimStart trimEnd mode clientX rectLeft width :
  0 < width ->
  0 <= trimStart -> trimStart + (5 # 10) <= trimEnd -> trimEnd <= duration ->
  mode = Timeline.dragStart \/ mode = Timeline.dragEnd ->
  exists start' end',
    Timeline.handleMouseMove duration trimStart trimEnd (Some mode)
                             clientX rectLeft width =
    Some (Timeline.onTrimChange start' end') /\
    0 <= start' /\ start' + (5 # 10) <= end' /\ end' <= duration /\
    (mode = Timeline.dragStart -> end' = trimEnd) /\
    (mode = Timeline.dragEnd -> start' = trimStart).
Proof.
  intros Hw H0 H1 H2 Hmode. unfold Timeline.handleMouseMove. cbv zeta.
  set (x := Math_max 0 (Math_min (clientX - rectLeft) width)).
  assert (Hx : 0 <= x /\ x <= width).
  { unfold x, Math_max, Math_min. qcases; split; lra. }
  assert (Hd : 0 <= duration) by lra.
  destruct (getTime_inside duration x width Hd Hw (proj1 Hx) (proj2 Hx)) as [T0 T1].
  revert T0 T1. generalize (Timeline.getTime duration x width). intros t T0 T1.
  destruct Hmode as [-> | ->]; eexists; eexists; (split; [reflexivity|]);
    unfold Math_max, Math_min; repeat split; try discriminate; qcases; lra.
Qed.

Lemma drag_keeps_trim_range_witness :
  exists start' end',
    Timeline.handleMouseMove 10 1 5 (Some Timeline.dragStart) 900 100 800 =
    Some (Timeline.onTrimChange start' end') /\
    0 <= start' /\ start' + (5 # 10) <= end' /\ end' <= 10.
Proof.
  destruct (drag_keeps_trim_range 10 1 5 Timeline.dragStart 900 100 800)
    as (s & e & H & H1 & H2 & H3 & _).
  - vm_compute. reflexivity.
  - vm_compute. discriminate.
  - vm_compute. discriminate.
  - vm_compute. discriminate.
  - left. reflexivity.
  - exists s, e. repeat split; assumption.
Defined.

(** X17.  Every seek the ruler requests lies inside the recording: on a
    ruler of positive width over a recording of positive duration, both a
    mouse press away from the handles and a seek drag call onSeek with a
    time in [0, duration]. *)
Theorem ruler_seeks_inside duration trimStart trimEnd clientX rectLeft width time :
  0 < width -> 0 < duration ->
  (snd (Timeline.handleMouseDown duration trimStart trimEnd clientX rectLeft width) =
     Some (Timeline.onSeek time) \/
   Timeline.handleMouseMove duration trimStart trimEnd (Some Timeline.dragSeek)
                            clientX rectLeft width = Some (Timeline.onSeek time)) ->
  0 <= time /\ time <= duration.
Proof.
  intros Hw Hd [H|H].
  - unfold Timeline.handleMouseDown in H. cbv zeta in H.
    destruct (Qeq_bool duration 0); [discriminate|].
    destruct (Qltb _ 15); [discriminate|].
    destruct (Qltb _ 15); [discriminate|].
    cbn [snd] in H. injection H as <-.
    unfold Math_max, Math_min. qcases; split; lra.
  - unfold Timeline.handleMouseMove in H. cbv zeta in H. injection H as <-.
    apply getTime_inside; try lra; unfold Math_max, Math_min; qcases; lra.
Qed.

Lemma ruler_seeks_inside_witness :
  0 <= Timeline.getTime 10 (Math_max 0 (Math_min (1200 - 100) 800)) 800 /\
  Timeline.getTime 10 (Math_max 0 (Math_min (1200 - 100) 800)) 800 <= 10.
Proof.
  apply (ruler_seeks_inside 10 1 5 1200 100 800).
  - vm_compute. reflexivity.
  - vm_compute. reflexivity.
  - right. reflexivity.
Defined.

(* ------------------------------------------------------------------ *)
(** * Further properties: progress animation and statistics *)

Lemma animate_step p :
  0 <= p -> p <= 99 ->
  p <= Progress.animate p /\ Progress.animate p <= 99 /\
  (p + (5 # 100) <= Progress.animate p \/ Progress.animate p = 99).
Proof.
  intros H0 H1. unfold Progress.animate, Math_max. cbv zeta.
  destruct (Qltb_spec (5 # 100) ((98 - p) / 60)) as [Hbig|Hsmall].
  - assert (Hinc : (98 - p) / 60 <= 98 / 60).
    { apply Qle_shift_div_r; [reflexivity|]. field_simplify. lra. }
    revert Hbig Hinc. generalize ((98 - p) / 60). intros inc Hbig Hinc.
    destruct (Qgeb_spec (p + inc) 99).
    + repeat split; try lra; try (now right).
    + repeat split; try lra; try (left; lra).
  - destruct (Qgeb_spec (p + (5 # 100)) 99).
    + repeat split; try lra; try (now right).
    + repeat split; try lra; try (left; lra).
Qed.

Lemma animate_reaches_99 p : 9895 # 100 <= p -> Progress.animate p = 99.
Proof.
  intros Hp. unfold Progress.animate, Math_max. cbv zeta.
  destruct (Qltb_spec (5 # 100) ((98 - p) / 60)) as [Hbig|Hsmall].
  - revert Hbig. generalize ((98 - p) / 60). intros inc Hbig.
    destruct (Qgeb_spec (p + inc) 99); [reflexivity|exfalso; lra].
  - destruct (Qgeb_spec (p + (5 # 100)) 99); [reflexivity|exfalso; lra].
Qed.

Lemma progressAfter_bounds n :
  0 <= Progress.progressAfter n /\ Progress.progressAfter n <= 99.
Proof.
  induction n as [|n [I0 I1]]; cbn [Progress.progressAfter].
  - split; [apply Qle_refl|vm_compute; discriminate].
  - destruct (animate_step _ I0 I1) as (A0 & A1 & _). split; lra.
Qed.

Lemma progressAfter_lower n :
  Progress.progressAfter n = 99 \/
  inject_Z (Z.of_nat n) * (5 # 100) <= Progress.progressAfter n.
Proof.
  induction n as [|n IH].
  - right. cbn. vm_compute. discriminate.
  - cbn [Progress.progressAfter]. destruct IH as [IH|IH].
    + left. rewrite IH. reflexivity.
    + destruct (progressAfter_bounds n) as [I0 I1].
      destruct (animate_step _ I0 I1) as (A0 & A1 & A2).
      destruct A2 as [A2|A2]; [|now left].
      right. rewrite Nat2Z.inj_succ, <- Z.add_1_r, inject_Z_plus.
      change (inject_Z 1) with 1. lra.
Qed.

(** X18.  The simulated progress starts at 0, never decreases, never
    exceeds 99, grows by at least 0.05 per frame until it is 99, and is
    exactly 99 from frame 1980 on. *)
Theorem progress_climbs_to_99 n :
  0 <= Progress.progressAfter n /\
  Progress.progressAfter n <= Progress.progressAfter (Datatypes.S n) /\
  Progress.progressAfter (Datatypes.S n) <= 99 /\
  (Progress.progressAfter n + (5 # 100) <= Progress.progressAfter (Datatypes.S n) \/
   Progress.progressAfter (Datatypes.S n) = 99) /\
  ((1980 <= n)%nat -> Progress.progressAfter n = 99).
Proof.
  destruct (progressAfter_bounds n) as [I0 I1].
  destruct (animate_step _ I0 I1) as (A0 & A1 & A2).
  cbn [Progress.progressAfter]. repeat split; try assumption.
  intros Hn. destruct n as [|n]; [lia|].
  cbn [Progress.progressAfter]. apply animate_reaches_99.
  destruct (progressAfter_lower n) as [L|L].
  - rewrite L. vm_compute. discriminate.
  - assert (Hq : inject_Z 1979 <= inject_Z (Z.of_nat n))
      by (rewrite <- Zle_Qle; lia).
    change (inject_Z 1979) with 1979 in Hq. lra.
Qed.

Lemma progress_climbs_to_99_witness :
  Progress.progressAfter 1980 = 99.
Proof.
  apply (progress_climbs_to_99 1980). apply Nat.le_refl.
Defined.

Lemma Math_round_lower x lo : inject_Z lo <= x -> (lo <= Math_round x)%Z.
Proof.
  intros Hlo. unfold Math_round.
  rewrite <- (Qfloor_Z lo). apply Qfloor_resp_le. lra.
Qed.

Lemma Math_round_upper x hi : x <= inject_Z hi -> (Math_round x <= hi)%Z.
Proof.
  intros Hhi. unfold Math_round.
  assert (H : (Qfloor (x + (1 # 2)) <= Qfloor (inject_Z hi + (1 # 2)))%Z)
    by (apply Qfloor_resp_le; lra).
  assert (Hf : (Qfloor (inject_Z hi + (1 # 2)) < hi + 1)%Z).
  { rewrite Zlt_Qlt. eapply Qle_lt_trans; [apply Qfloor_le|].
    rewrite inject_Z_plus. change (inject_Z 1) with 1. lra. }
  lia.
Qed.

(** X19.  renderStats shows nothing while the original duration is 0.
    Otherwise the reduction percentage it shows is never negative, and it
    is at most 100 when the original duration is positive, the final
    duration is not negative and the trim range lies inside
    [0, originalDuration]. *)
Theorem renderStats_percent originalDuration finalDuration tStart tEnd :
  (originalDuration == 0 ->
   renderStats originalDuration finalDuration tStart tEnd = None) /\
  (~ originalDuration == 0 ->
   exists view,
     renderStats originalDuration finalDuration tStart tEnd = Some view /\
     (0 <= reductionPercent view)%Z /\
     (0 < originalDuration -> 0 <= finalDuration -> 0 <= tStart ->
      tEnd <= originalDuration -> (reductionPercent view <= 100)%Z)).
Proof.
  unfold renderStats. split.
  - intros H. apply Qeq_bool_iff in H. now rewrite H.
  - intros H. destruct (Qeq_bool originalDuration 0) eqn:E;
      [apply Qeq_bool_iff in E; contradiction|].
    cbv zeta. eexists. split; [reflexivity|]. cbn [reductionPercent].
    set (saved := Math_max 0 (tEnd - tStart - finalDuration)).
    assert (Hs0 : 0 <= saved) by (unfold saved, Math_max; qcases; lra).
    destruct (Qltb_spec 0 originalDuration) as [Hpos|Hneg].
    + assert (Hq0 : 0 <= saved / originalDuration).
      { apply Qle_shift_div_l; [assumption|]. lra. }
      split.
      * apply Math_round_lower. change (inject_Z 0) with 0.
        revert Hq0. generalize (saved / originalDuration). intros r Hr. lra.
      * intros _ Hfd Hts Hte.
        assert (Hq1 : saved / originalDuration <= 1).
        { apply Qle_shift_div_r; [assumption|].
          unfold saved, Math_max. qcases; lra. }
        apply Math_round_upper. change (inject_Z 100) with 100.
        revert Hq1. generalize (saved / originalDuration). intros r Hr. lra.
    + split; [lia|]. intros Hpos. exfalso. lra.
Qed.

Lemma renderStats_percent_witness :
  exists view,
    renderStats 10 3 1 5 = Some view /\ (0 <= reductionPercent view)%Z.
Proof.
  destruct (renderStats_percent 10 3 1 5) as [_ H].
  destruct H as (view & H1 & H2 & _).
  - vm_compute. discriminate.
  - exists view. split; assumption.
Defined.

(** Scenario C in the panel: 4 s of trim range, 3 s kept, 10 s of
    recording: 10 percent saved. *)
Example renderStats_scenarioC :
  renderStats 10 3 1 5 = Some (mkStats "10.0" "3.0" 10).
Proof. reflexivity. Qed.

(* ------------------------------------------------------------------ *)
(** * Further properties: file names *)

Lemma escapeUnix_cons c rest :
  escapeUnix (String c rest) =
  if isShellSpecial c then String BSLASH (String c (escapeUnix rest))
  else String c (escapeUnix rest).
Proof. reflexivity. Qed.

Lemma escapeUnix_escaped name : escapedText (escapeUnix name).
Proof.
  induction name as [|c rest IH]; [constructor|].
  rewrite escapeUnix_cons. destruct (isShellSpecial c) eqn:E.
  - now apply escaped_pair.
  - now apply escaped_plain.
Qed.

Lemma escapeUnix_injective :
  forall name other, escapeUnix name = escapeUnix other -> name = other.
Proof.
  induction name as [|c rest IH]; intros [|d other] H.
  - reflexivity.
  - rewrite escapeUnix_cons in H. cbn [escapeUnix] in H.
    destruct (isShellSpecial d); discriminate.
  - rewrite escapeUnix_cons in H. cbn [escapeUnix] in H.
    destruct (isShellSpecial c); discriminate.
  - rewrite !escapeUnix_cons in H.
    destruct (isShellSpecial c) eqn:Ec; destruct (isShellSpecial d) eqn:Ed.
    + injection H as -> H. f_equal. now apply IH.
    + injection H as <- _. discriminate.
    + injection H as -> _. discriminate.
    + injection H as -> H. f_equal. now apply IH.
Qed.

Lemma escapeUnix_plain name :
  everyChar (fun c => negb (isShellSpecial c)) name = true -> escapeUnix name = name.
Proof.
  induction name as [|c rest IH]; [reflexivity|].
  cbn [everyChar]. intros H. apply andb_true_iff in H. destruct H as [Hc Hr].
  rewrite escapeUnix_cons. apply negb_true_iff in Hc. rewrite Hc.
  now rewrite IH.
Qed.

(** X20.  escapeName for the unix dialect loses nothing and leaves nothing
    bare: different names get different escaped names, in the result every
    double quote, backslash, dollar sign and backtick is the second
    character of a backslash pair, and a name without those characters is
    returned unchanged.  For the batch dialect the name is returned as it
    is. *)
Theorem escapeName_unix_faithful name :
  escapedText (escapeName name unix) /\
  (forall other, escapeName name unix = escapeName other unix -> name = other) /\
  (everyChar (fun c => negb (isShellSpecial c)) name = true ->
   escapeName name unix = name) /\
  escapeName name win = name.
Proof.
  cbn [escapeName]. repeat split.
  - apply escapeUnix_escaped.
  - apply escapeUnix_injective.
  - apply escapeUnix_plain.
Qed.

Lemma escapeName_unix_faithful_witness :
  escapeName "my clip.mp4" unix = "my clip.mp4"%string.
Proof.
  destruct (escapeName_unix_faithful "my clip.mp4") as (_ & _ & H & _).
  apply H. reflexivity.
Defined.

Lemma isSpace2_underscore c : isSpace2 c "_" = false.
Proof. unfold isSpace2. apply andb_false_r. Qed.

Lemma isSpace3_underscore_middle c c3 : isSpace3 c "_" c3 = false.
Proof.
  unfold isSpace3. cbv zeta.
  destruct (Ascii.eqb c "225"), (Ascii.eqb c "226"), (Ascii.eqb c "227"),
    (Ascii.eqb c "239"); reflexivity.
Qed.

Lemma isSpace3_underscore_last c c2 : isSpace3 c c2 "_" = false.
Proof.
  unfold isSpace3. cbv zeta.
  destruct (Ascii.eqb c "225"), (Ascii.eqb c "226"), (Ascii.eqb c "227"),
    (Ascii.eqb c "239"), (Ascii.eqb c2 "154"), (Ascii.eqb c2 "128"),
    (Ascii.eqb c2 "129"), (Ascii.eqb c2 "187"); reflexivity.
Qed.

Lemma spaceLength_underscore t : spaceLength (String "_" t) = 0%nat.
Proof. destruct t as [|c2 [|c3 t]]; reflexivity. Qed.

(** One step of the scan: the first byte is kept, or a white-space
    character is consumed and the scan goes on in a run. *)
Lemma collapseSpaces_cases inRun c rest :
  (spaceLength (String c rest) = 0%nat /\
   collapseSpaces inRun (String c rest) = String c (collapseSpaces false rest)) \/
  (exists after,
     (String.length after < String.length (String c rest))%nat /\
     collapseSpaces inRun (String c rest) =
     underscoreOnce inRun (collapseSpaces true after)).
Proof.
  cbn [collapseSpaces spaceLength].
  destruct (isSpace c).
  - right. exists rest. split; [cbn; lia|reflexivity].
  - destruct rest as [|c2 rest2]; [left; split; reflexivity|].
    destruct (isSpace2 c c2).
    + right. exists rest2. split; [cbn; lia|reflexivity].
    + destruct rest2 as [|c3 rest3]; [left; split; reflexivity|].
      destruct (isSpace3 c c2 c3).
      * right. exists rest3. split; [cbn; lia|reflexivity].
      * left. split; reflexivity.
Qed.

(** A kept byte does not start a white-space character together with what
    the scan leaves after it. *)
Lemma spaceLength_kept c rest :
  spaceLength (String c rest) = 0%nat ->
  spaceLength (String c (collapseSpaces false rest)) = 0%nat.
Proof.
  intros H. cbn [spaceLength] in H. cbn [spaceLength].
  destruct (isSpace c); [discriminate|].
  destruct rest as [|c2 rest2]; [reflexivity|].
  destruct (collapseSpaces_cases false c2 rest2) as [[_ ->]|(after & _ & ->)].
  - destruct (isSpace2 c c2); [discriminate|].
    destruct rest2 as [|c3 rest3]; [reflexivity|].
    destruct (collapseSpaces_cases false c3 rest3) as [[_ ->]|(after & _ & ->)].
    + destruct (isSpace3 c c2 c3); [discriminate|reflexivity].
    + cbn [underscoreOnce]. now rewrite isSpace3_underscore_last.
  - cbn [underscoreOnce]. rewrite isSpace2_underscore.
    destruct (collapseSpaces true after); [reflexivity|].
    now rewrite isSpace3_underscore_middle.
Qed.

Lemma collapseSpaces_spaceFree :
  forall n s inRun,
    (String.length s <= n)%nat -> spaceFree (collapseSpaces inRun s) = true.
Proof.
  induction n as [|n IH]; intros s inRun Hlen.
  - destruct s; [reflexivity|cbn in Hlen; lia].
  - destruct s as [|c rest]; [reflexivity|].
    destruct (collapseSpaces_cases inRun c rest) as [[H0 ->]|(after & Hafter & ->)].
    + cbn [spaceFree]. rewrite (spaceLength_kept c rest H0). cbn [Nat.eqb andb].
      apply IH. cbn in Hlen. lia.
    + assert (Hrec : spaceFree (collapseSpaces true after) = true).
      { apply IH. cbn [String.length] in *. lia. }
      destruct inRun; cbn [underscoreOnce]; [exact Hrec|].
      cbn [spaceFree]. rewrite spaceLength_underscore. exact Hrec.
Qed.

Lemma spaceLength_prefix a d :
  spaceLength (a ++ d)%string = 0%nat -> spaceLength a = 0%nat.
Proof.
  destruct a as [|c [|c2 [|c3 a]]]; cbn [append spaceLength]; try reflexivity.
  - destruct (isSpace c); [discriminate|reflexivity].
  - destruct (isSpace c); [discriminate|].
    destruct (isSpace2 c c2); [discriminate|reflexivity].
  - intros H. exact H.
Qed.

Lemma spaceFree_prefix :
  forall a d, spaceFree (a ++ d)%string = true -> spaceFree a = true.
Proof.
  induction a as [|c a IH]; intros d H; [reflexivity|].
  change ((String c a ++ d)%string) with (String c (a ++ d)%string) in H.
  cbn [spaceFree] in *. apply andb_true_iff in H. destruct H as [H1 H2].
  apply Nat.eqb_eq in H1.
  change (String c (a ++ d)%string) with ((String c a ++ d)%string) in H1.
  apply spaceLength_prefix in H1. rewrite H1. cbn [Nat.eqb andb].
  now apply (IH d).
Qed.

Lemma stripExtension_prefix :
  forall s, exists dropped, s = (stripExtension s ++ dropped)%string.
Proof.
  induction s as [|c rest [dropped IH]]; [now exists EmptyString|].
  cbn [stripExtension]. destruct (Ascii.eqb c "." && plainTail rest).
  - now exists (String c rest).
  - exists dropped. cbn [append]. now rewrite <- IH.
Qed.

(** The scan at work: a run of spaces and a no-break space (U+00A0, bytes
    C2 A0) next to a tab become one underscore each, a narrow no-break
    space (U+202F, bytes E2 80 AF) as well, while an em dash (U+2014, bytes
    E2 80 94) is kept. *)
Lemma safeName_examples :
  safeName "my  video file.final.mp4" = "my_video_file.final"%string /\
  safeName (String "a" (String "194" (String "160" (String "009" "b.mov")))) =
    "a_b"%string /\
  safeName (String "a" (String "226" (String "128" (String "175" "b.mov")))) =
    "a_b"%string /\
  safeName (String "a" (String "226" (String "128" (String "148" "b.mov")))) =
    String "a" (String "226" (String "128" (String "148" "b"))).
Proof. repeat split; reflexivity. Qed.

(** X21.  The base of the output name never holds a white-space character
    of the regular expression class: none of them (tab, line feed,
    vertical tab, form feed, carriage return, space, U+00A0, U+1680,
    U+2000 to U+200A, U+2028, U+2029, U+202F, U+205F, U+3000, U+FEFF)
    starts at any position of it, whatever the file name; and it is a
    prefix of the file name with its runs of white space collapsed. *)
Theorem safeName_no_whitespace filename :
  spaceFree (safeName filename) = true /\
  exists dropped,
    collapseSpaces false filename = (safeName filename ++ dropped)%string.
Proof.
  unfold safeName.
  destruct (stripExtension_prefix (collapseSpaces false filename)) as [dropped Hd].
  split; [|now exists dropped].
  apply (spaceFree_prefix _ dropped). rewrite <- Hd.
  now apply (collapseSpaces_spaceFree (String.length filename)).
Qed.

Lemma to_uint_normal n : Nat.to_uint n = Decimal.unorm (Nat.to_uint n).
Proof.
  rewrite <- (DecimalNat.Unsigned.of_to n) at 1.
  apply DecimalNat.Unsigned.to_of.
Qed.

Lemma String_of_nat_injective i j : String_of_nat i = String_of_nat j -> i = j.
Proof.
  unfold String_of_nat. intros H.
  apply DecimalNat.Unsigned.to_uint_inj.
  assert (Hs : Some (Nat.to_uint i) = Some (Nat.to_uint j)).
  { rewrite <- (NilEmpty.usu (Nat.to_uint i)), <- (NilEmpty.usu (Nat.to_uint j)).
    now rewrite H. }
  now injection Hs.
Qed.

Lemma String_of_nat_nonempty n : String_of_nat n <> EmptyString.
Proof.
  unfold String_of_nat. rewrite to_uint_normal.
  pose proof (DecimalFacts.unorm_nonnil (Nat.to_uint n)) as H.
  destruct (Decimal.unorm (Nat.to_uint n)); [congruence|discriminate..].
Qed.

(** A printed number only starts with the digit 0 when it is 0. *)
Lemma String_of_nat_leading_zero n rest :
  String_of_nat n = String "0" rest -> rest = EmptyString.
Proof.
  unfold String_of_nat. intros H.
  pose proof (to_uint_normal n) as Hn.
  destruct (Nat.to_uint n) as [|d|d|d|d|d|d|d|d|d|d]; try discriminate H.
  cbn [NilEmpty.string_of_uint] in H. injection H as <-.
  rewrite DecimalFacts.unorm_D0 in Hn.
  destruct (Decimal.nzhead d) eqn:E.
  - unfold Decimal.unorm in Hn. rewrite E in Hn. now injection Hn as ->.
  - exfalso. exact (DecimalFacts.nzhead_nonzero _ _ E).
  - exfalso. rewrite DecimalFacts.unorm_nzhead in Hn by congruence.
    rewrite E in Hn. discriminate.
  - exfalso. rewrite DecimalFacts.unorm_nzhead in Hn by congruence.
    rewrite E in Hn. discriminate.
  - exfalso. rewrite DecimalFacts.unorm_nzhead in Hn by congruence.
    rewrite E in Hn. discriminate.
  - exfalso. rewrite DecimalFacts.unorm_nzhead in Hn by congruence.
    rewrite E in Hn. discriminate.
  - exfalso. rewrite DecimalFacts.unorm_nzhead in Hn by congruence.
    rewrite E in Hn. discriminate.
  - exfalso. rewrite DecimalFacts.unorm_nzhead in Hn by congruence.
    rewrite E in Hn. discriminate.
  - exfalso. rewrite DecimalFacts.unorm_nzhead in Hn by congruence.
    rewrite E in Hn. discriminate.
  - exfalso. rewrite DecimalFacts.unorm_nzhead in Hn by congruence.
    rewrite E in Hn. discriminate.
  - exfalso. rewrite DecimalFacts.unorm_nzhead in Hn by congruence.
    rewrite E in Hn. discriminate.
Qed.

Lemma zeros_cancel :
  forall a b s t,
    (a <= b)%nat ->
    (repeatChar "0" a ++ s)%string = (repeatChar "0" b ++ t)%string ->
    s = (repeatChar "0" (b - a) ++ t)%string.
Proof.
  induction a as [|a IH]; intros b s t Hab H.
  - now rewrite Nat.sub_0_r.
  - destruct b as [|b]; [lia|]. cbn [repeatChar append] in H.
    injection H as H. cbn [Nat.sub]. apply IH; [lia|assumption].
Qed.

Lemma padded_numbers_differ i j (a b : nat) :
  (a <= b)%nat ->
  (repeatChar "0" a ++ String_of_nat i)%string =
  (repeatChar "0" b ++ String_of_nat j)%string ->
  i = j.
Proof.
  intros Hab H. apply zeros_cancel in H; [|assumption].
  destruct (b - a)%nat as [|k].
  - now apply String_of_nat_injective.
  - exfalso. cbn [repeatChar append] in H.
    apply String_of_nat_leading_zero in H.
    destruct (repeatChar "0" k); [|discriminate].
    now apply (String_of_nat_nonempty j).
Qed.

Lemma padStart4_injective i j :
  padStart4 (String_of_nat i) = padStart4 (String_of_nat j) -> i = j.
Proof.
  unfold padStart4. intros H.
  destruct (Nat.le_ge_cases (4 - String.length (String_of_nat i))
                            (4 - String.length (String_of_nat j))) as [Hle|Hle].
  - now apply (padded_numbers_differ i j _ _ Hle).
  - symmetry. symmetry in H. now apply (padded_numbers_differ j i _ _ Hle).
Qed.

Lemma append_cancel_r :
  forall a b c : string, (a ++ c)%string = (b ++ c)%string -> a = b.
Proof.
  assert (Hlen : forall a b : string,
             String.length (a ++ b)%string = (String.length a + String.length b)%nat).
  { induction a as [|x a IH]; intros b; cbn; [reflexivity|now rewrite IH]. }
  induction a as [|x a IH]; intros [|y b] c H.
  - reflexivity.
  - exfalso. apply (f_equal String.length) in H.
    cbn [append String.length] in H. rewrite Hlen in H. lia.
  - exfalso. apply (f_equal String.length) in H.
    cbn [append String.length] in H. rewrite Hlen in H. lia.
  - cbn [append] in H. injection H as -> H. f_equal. now apply (IH b c).
Qed.

(** X22.  The temporary segment files of one script never collide: two
    different segment indices get different file names, for every format
    and also beyond 9999 segments; the batch manifest names are pairwise
    different as well. *)
Theorem segName_injective config i j :
  (segName config i = segName config j -> i = j) /\
  (winManifestLine i = winManifestLine j -> i = j).
Proof.
  split.
  - unfold segName. intros H. cbn [append] in H.
    injection H as H.
    apply append_cancel_r in H.
    now apply padStart4_injective.
  - unfold winManifestLine. intros H. cbn [append] in H.
    injection H as H.
    apply append_cancel_r in H.
    now apply padStart4_injective.
Qed.

Lemma segName_injective_witness : (7 = 7)%nat.
Proof.
  apply (proj1 (segName_injective mp3Export 7 7)). reflexivity.
Defined.
